(** * TinyGo: the golden test harness of the transform package and os.ReadFile

    A shallow embedding of
    - [transform_test] helpers: [testTransform], [fuzzyEqualIR],
      [filterIrrelevantIRLines] and the regular expression [alignRegexp];
    - [os.ReadFile] (the Go 1.16 variant shipped in [src/os/file_go_116.go]);
    together with the properties the specification states about them.

    Go strings are byte strings: they are modelled by [string], a list of
    8-bit [ascii] characters.  Go [int] values are modelled by [Z] or [nat]. *)

From Stdlib Require Import ZArith Ascii String List Bool Lia.
From stdpp Require Import gmap strings list.

Import ListNotations.
Local Open Scope list_scope.
Local Open Scope string_scope.

(** ** Characters that have no literal notation *)

Definition LF : ascii := ascii_of_nat 10.
Definition CR : ascii := ascii_of_nat 13.

(** ** The functions of Go's [strings] package used by the harness *)

Module strings.

(** [strings.Split(s, sep)] for a one-byte separator: the pieces of [s]
    between the occurrences of [sep]; never empty ([Split("", sep)] is
    the list holding the empty string). *)
Fixpoint Split (s : string) (sep : ascii) : list string :=
  match s with
  | EmptyString => [EmptyString]
  | String c s' =>
      if Ascii.eqb c sep then EmptyString :: Split s' sep
      else match Split s' sep with
           | piece :: pieces => String c piece :: pieces
           | [] => [String c EmptyString]
           end
  end.

(** Membership of a byte in a cutset. *)
Fixpoint inCutset (c : ascii) (cutset : string) : bool :=
  match cutset with
  | EmptyString => false
  | String d cutset' => Ascii.eqb c d || inCutset c cutset'
  end.

(** [strings.TrimRight(s, cutset)]: [s] without its trailing bytes that
    belong to [cutset]. *)
Fixpoint TrimRight (s cutset : string) : string :=
  match s with
  | EmptyString => EmptyString
  | String c s' =>
      match TrimRight s' cutset with
      | EmptyString => if inCutset c cutset then EmptyString
                       else String c EmptyString
      | t => String c t
      end
  end.

(** [strings.HasPrefix(s, prefix)]. *)
Definition HasPrefix (s prefix : string) : bool := String.prefix prefix s.

(** [strings.Index(s, substr)]: the offset of the first occurrence of
    [substr] in [s], or [-1]. *)
Fixpoint Index (s substr : string) : Z :=
  if String.prefix substr s then 0%Z
  else match s with
       | EmptyString => (-1)%Z
       | String _ s' =>
           let i := Index s' substr in
           if (i <? 0)%Z then (-1)%Z else (i + 1)%Z
       end.

(** The slice expression [s[n:]] for an offset within range. *)
Fixpoint sliceFrom (s : string) (n : nat) : string :=
  match n, s with
  | O, _ => s
  | S n', String _ s' => sliceFrom s' n'
  | S _, EmptyString => EmptyString
  end.

(** The slice expression [s[:n]]. *)
Fixpoint sliceTo (s : string) (n : nat) : string :=
  match n, s with
  | O, _ => EmptyString
  | S n', String c s' => String c (sliceTo s' n')
  | S _, EmptyString => EmptyString
  end.

End strings.

(** ** The two regular expressions of the harness *)

Module regexp.

(** The character class [[0-9]]. *)
Definition isDigit (c : ascii) : bool :=
  (48 <=? nat_of_ascii c)%nat && (nat_of_ascii c <=? 57)%nat.

Fixpoint allDigits (s : string) : bool :=
  match s with
  | EmptyString => true
  | String c s' => isDigit c && allDigits s'
  end.

(** [stripLiteral lit s] is the rest of [s] after the literal [lit], when
    [s] starts with it. *)
Fixpoint stripLiteral (lit s : string) : option string :=
  match lit, s with
  | EmptyString, _ => Some s
  | String a lit', String b s' =>
      if Ascii.eqb a b then stripLiteral lit' s' else None
  | String _ _, EmptyString => None
  end.

(** [alignAt s]: the expression [, align [0-9]+$] matches the whole of
    [s].  Go's [$] (without the [m] flag) is the end of the text. *)
Definition alignAt (s : string) : bool :=
  match stripLiteral ", align " s with
  | Some d => negb (String.eqb d "") && allDigits d
  | None => false
  end.

(** The leftmost offset at which [, align [0-9]+$] matches in [s].  A
    match runs to the end of the text, so there is at most one. *)
Fixpoint alignFind (s : string) : option nat :=
  if alignAt s then Some O
  else match s with
       | EmptyString => None
       | String _ s' => option_map S (alignFind s')
       end.

(** [alignRegexp.MatchString(s)]. *)
Definition alignMatchString (s : string) : bool :=
  match alignFind s with Some _ => true | None => false end.

(** [alignRegexp.ReplaceAllString(s, repl)] for a replacement without
    [$] references: the match, which ends the text, is replaced. *)
Definition alignReplaceAllString (s repl : string) : string :=
  match alignFind s with
  | Some i => strings.sliceTo s i ++ repl
  | None => s
  end.

(** The number of leading bytes of [s] in [[0-9]]. *)
Fixpoint countDigits (s : string) : nat :=
  match s with
  | String c s' => if isDigit c then S (countDigits s') else O
  | EmptyString => O
  end.

(** [paramAt s]: a match of [ %[0-9]+(\)|,)] at the start of [s], as the
    length of the match and the byte captured by the group.  [[0-9]+] is
    greedy and the group accepts no digit, so the match is unique. *)
Definition paramAt (s : string) : option (nat * ascii) :=
  match stripLiteral " %" s with
  | Some r =>
      let n := countDigits r in
      if (n =? 0)%nat then None
      else match strings.sliceFrom r n with
           | String c _ =>
               if Ascii.eqb c ")" || Ascii.eqb c "," then Some (2 + n + 1, c)%nat
               else None
           | EmptyString => None
           end
  | None => None
  end.

(** [regexp.MustCompile(` %[0-9]+(\)|,)`).ReplaceAllString(s, "$1")]:
    every leftmost, non-overlapping match is replaced by its group.
    [skip] counts the bytes of the current match still to be dropped. *)
Fixpoint paramReplaceFrom (skip : nat) (s : string) : string :=
  match s with
  | EmptyString => EmptyString
  | String c s' =>
      match skip with
      | S k => paramReplaceFrom k s'
      | O =>
          match paramAt s with
          | Some (len, g) => String g (paramReplaceFrom (len - 1) s')
          | None => String c (paramReplaceFrom O s')
          end
      end
  end.

Definition paramReplaceAllString (s : string) : string :=
  paramReplaceFrom O s.

End regexp.

(** ** [fuzzyEqualIR] and [filterIrrelevantIRLines] *)

Section FuzzyEqual.

(** The major version of the LLVM library the test binary is linked
    against: [strconv.Atoi(strings.Split(llvm.Version, ".")[0])].  The
    constant [llvm.Version] belongs to the go-llvm bindings, not to this
    repository, so its parsed value is a parameter. *)
Variable llvmVersion : Z.

(** The loop of [filterIrrelevantIRLines]; [out] is the slice built so
    far and [continue] is the recursive call that leaves it unchanged. *)
Fixpoint filterLoop (lines out : list string) : list string :=
  match lines with
  | [] => out
  | line :: rest =>
      let line := hd EmptyString (strings.Split line ";") in
      let line := strings.TrimRight line (String CR " ") in
      if String.eqb line "" then filterLoop rest out
      else if strings.HasPrefix line "source_filename = " then
        filterLoop rest out
      else if (llvmVersion <? 10)%Z && strings.HasPrefix line "attributes "
      then filterLoop rest out
      else
        let line :=
          if (llvmVersion <? 10)%Z && strings.HasPrefix line "define "
          then regexp.paramReplaceAllString line
          else line in
        filterLoop rest (out ++ [line])
  end.

Definition filterIrrelevantIRLines (lines : list string) : list string :=
  filterLoop lines [].

(** The body of the comparison loop for one pair of lines: [true] when
    the iteration does not return [false]. *)
Definition linesMatch (line1 line2 : string) : bool :=
  let match1 := regexp.alignMatchString line1 in
  let match2 := regexp.alignMatchString line2 in
  let '(line1, line2) :=
    if negb (Bool.eqb match1 match2)
    then (regexp.alignReplaceAllString line1 "",
          regexp.alignReplaceAllString line2 "")
    else (line1, line2) in
  String.eqb line1 line2.

(** [for i, line1 := range lines1 { line2 := lines2[i]; ... }], started
    at index [i] with the lines of [lines1] still to visit.  The index is
    in range because the lengths were compared before the loop. *)
Fixpoint compareLoop (i : nat) (todo lines2 : list string) : bool :=
  match todo with
  | [] => true
  | line1 :: rest =>
      let line2 := nth i lines2 EmptyString in
      if negb (linesMatch line1 line2) then false
      else compareLoop (S i) rest lines2
  end.

Definition fuzzyEqualIR (s1 s2 : string) : bool :=
  let lines1 := filterIrrelevantIRLines (strings.Split s1 LF) in
  let lines2 := filterIrrelevantIRLines (strings.Split s2 LF) in
  if negb (List.length lines1 =? List.length lines2)%nat then false
  else compareLoop O lines1 lines2.

End FuzzyEqual.

(** ** The filter and the comparison, stated declaratively

    These definitions are not part of the program: they say, line by line,
    what the filter keeps and when two kept lines count as equal.  The
    theorems below compare them with the loops above. *)

Module declarative.

(** The text of a line before its first [;]. *)
Fixpoint dropComment (line : string) : string :=
  match line with
  | EmptyString => EmptyString
  | String c rest =>
      if Ascii.eqb c ";" then EmptyString else String c (dropComment rest)
  end.

(** A line without a visible byte: spaces, tabs and carriage returns only. *)
Fixpoint isBlank (line : string) : bool :=
  match line with
  | EmptyString => true
  | String c rest =>
      (Ascii.eqb c " " || Ascii.eqb c (ascii_of_nat 9) || Ascii.eqb c CR)
      && isBlank rest
  end.

(** The filter in the words of the specification: comment text dropped,
    blank lines dropped, [source_filename = ] lines dropped. *)
Definition statedFilter (lines : list string) : list string :=
  List.filter (fun l => negb (strings.HasPrefix l "source_filename = "))
    (List.filter (fun l => negb (isBlank l)) (map dropComment lines)).

(** [line] ends with an annotation [, align N], [N] a decimal number. *)
Definition endsWithAlign (line : string) : Prop :=
  exists body digits : string,
    line = body ++ ", align " ++ digits
    /\ digits <> EmptyString /\ regexp.allDigits digits = true.

(** [long] is [short] followed by an annotation that [short] lacks. *)
Definition annotates (long short : string) : Prop :=
  ~ endsWithAlign short
  /\ exists digits : string,
       long = short ++ ", align " ++ digits
       /\ digits <> EmptyString /\ regexp.allDigits digits = true.

(** The alignment rule for a pair of lines: they are equal, or one of them
    is the other followed by an annotation that the other lacks. *)
Definition alignRule (line1 line2 : string) : Prop :=
  line1 = line2 \/ annotates line1 line2 \/ annotates line2 line1.

(** The comparison as the specification words it. *)
Definition statedEqual (s1 s2 : string) : Prop :=
  let lines1 := statedFilter (strings.Split s1 LF) in
  let lines2 := statedFilter (strings.Split s2 LF) in
  List.length lines1 = List.length lines2 /\ Forall2 alignRule lines1 lines2.

(** What the code does to one line before looking at it: the comment text
    goes, then the trailing spaces and carriage returns. *)
Definition cleanLine (line : string) : string :=
  strings.TrimRight (dropComment line) (String CR " ").

(** The cleaned lines the code keeps. *)
Definition keepLine (llvmVersion : Z) (line : string) : bool :=
  negb (String.eqb line "")
  && negb (strings.HasPrefix line "source_filename = ")
  && negb ((llvmVersion <? 10)%Z && strings.HasPrefix line "attributes ").

(** The rewriting of the kept [define] lines for LLVM before 10. *)
Definition rewriteLine (llvmVersion : Z) (line : string) : string :=
  if (llvmVersion <? 10)%Z && strings.HasPrefix line "define "
  then regexp.paramReplaceAllString line
  else line.

Definition relevantLines (llvmVersion : Z) (lines : list string)
  : list string :=
  map (rewriteLine llvmVersion)
    (List.filter (keepLine llvmVersion) (map cleanLine lines)).

End declarative.

(** ** [testTransform]

    The harness runs against a file system, the go-llvm bindings and a
    [*testing.T].  The file system is a finite map from paths to contents;
    every access is recorded, so that the theorems can say which files a
    run touches. *)

Module harness.

(** The file-system accesses of a run, in program order. *)
Inductive FileOp : Type :=
| OpRead (path : string)
| OpStat (path : string)
| OpWrite (path : string) (data : string).

(** The messages the harness hands to [t.Fatalf], [t.Error] and [t.Logf];
    the text of the underlying error values is left out. *)
Inductive Message : Type :=
| CouldNotReadFile (path : string)
| CouldNotLoadModule
| FailedToWriteOutput
| CouldNotReadOutputFile (path : string)
| OutputDoesNotMatch (actual : string).

(** The state a run leaves behind. [completed] is [false] when [t.Fatalf]
    stopped the test function. *)
Record Run : Type := mkRun {
  files : gmap string string;
  trace : list FileOp;
  failed : bool;
  log : list Message;
  completed : bool
}.

Section TestTransform.

(** [llvm.Module], [ctx.ParseIR] and [mod.String] of the go-llvm bindings;
    [ParseIR] answers [None] for text it rejects. *)
Variable Module_ : Type.
Variable ParseIR : string -> option Module_.
Variable ModuleString : Module_ -> string.
Variable llvmVersion : Z.

(** Whether the operating system accepts a write to a path
    ([ioutil.WriteFile] returns an error otherwise; a refused write is
    taken to leave the files as they were). *)
Variable writable : string -> bool.

(** The flag [-update]. *)
Variable update : bool.

(** [transform] mutates the module in place; here it returns the module
    after the mutation. *)
Definition testTransform (fs : gmap string string) (pathPrefix : string)
    (transform : Module_ -> Module_) : Run :=
  (* Read the input IR. *)
  let reads := [OpRead (pathPrefix ++ ".ll"); OpStat (pathPrefix ++ ".ll")] in
  match fs !! (pathPrefix ++ ".ll") with
  | None =>
      mkRun fs reads true [CouldNotReadFile (pathPrefix ++ ".ll")] false
  | Some buf =>
      match ParseIR buf with
      | None => mkRun fs reads true [CouldNotLoadModule] false
      | Some mod_ =>
          (* Perform the transform. *)
          let mod_ := transform mod_ in
          (* Get the output from the test and filter some irrelevant lines. *)
          let actual := ModuleString mod_ in
          let actual :=
            strings.sliceFrom actual
              (Z.to_nat
                 (strings.Index actual (String LF "target datalayout = ") + 1))
          in
          if update then
            if writable (pathPrefix ++ ".out.ll") then
              mkRun (<[pathPrefix ++ ".out.ll" := actual]> fs)
                (reads ++ [OpWrite (pathPrefix ++ ".out.ll") actual])
                false [] true
            else
              mkRun fs (reads ++ [OpWrite (pathPrefix ++ ".out.ll") actual])
                true [FailedToWriteOutput] true
          else
            (* Read the expected output IR. *)
            match fs !! (pathPrefix ++ ".out.ll") with
            | None =>
                mkRun fs (reads ++ [OpRead (pathPrefix ++ ".out.ll")]) true
                  [CouldNotReadOutputFile (pathPrefix ++ ".out.ll")] false
            | Some out =>
                (* See whether the transform output matches. *)
                let expected := out in
                if negb (fuzzyEqualIR llvmVersion expected actual) then
                  mkRun fs (reads ++ [OpRead (pathPrefix ++ ".out.ll")]) true
                    [OutputDoesNotMatch actual] true
                else
                  mkRun fs (reads ++ [OpRead (pathPrefix ++ ".out.ll")]) false
                    [] true
            end
      end
  end.

End TestTransform.

(** The path an access is about. *)
Definition opPath (op : FileOp) : string :=
  match op with
  | OpRead p | OpStat p | OpWrite p _ => p
  end.

End harness.

(** ** [os.ReadFile] *)

Module os.

(** What a call of [ReadFile] ends with: the two results, or a run-time
    panic (a slice expression out of range, a slice that cannot be
    allocated). *)
Inductive Outcome (error : Type) : Type :=
| Returned (data : list Byte.byte) (err : option error)
| Panicked.

Arguments Returned {error} data err.
Arguments Panicked {error}.

Section ReadFile.

(** The rest of package [os] and the run time, as far as [ReadFile] uses
    them.  [File] is the state behind a [*File]; [Read f n] is [f.Read] on
    a buffer of [n] bytes and answers the bytes read, the error and the
    state afterwards; [appendSlack c] is the capacity [append] adds beyond
    the one byte it needs when it grows a slice of capacity [c];
    [allocates n] tells whether the run time can allocate a byte slice of
    capacity [n]: when it cannot, [make] and [append] panic (capacity out
    of range, out of memory); [intBits] is the width of [int] on the
    target. *)
Variable File : Type.
Variable error : Type.
Context `{EqDecision error}.
Variable EOF : error.
Variable Open : string -> File + error.
Variable Stat : File -> Z + error.
Variable Read : File -> nat -> list Byte.byte * option error * File.
Variable appendSlack : nat -> nat.
Variable allocates : nat -> bool.
Variable intBits : Z.

(** The conversion [int(x)] of an [int64]. *)
Definition toInt (x : Z) : Z :=
  ((x + 2 ^ (intBits - 1)) mod 2 ^ intBits - 2 ^ (intBits - 1))%Z.

(** The capacity of [data] after the first statement of the loop body:
    [append(data[:cap(data)], 0)] when the slice is full. *)
Definition capAfterGrow (len cap : nat) : nat :=
  if (cap <=? len)%nat then S cap + appendSlack cap else cap.

(** [append(data[:cap(data)], 0)] is reached and cannot allocate the
    larger slice. *)
Definition growPanics (len cap : nat) : bool :=
  (cap <=? len)%nat && negb (allocates (S cap + appendSlack cap)).

(** The [for] loop; [None] when [fuel] iterations did not reach the
    [return]. *)
Fixpoint readLoop (fuel : nat) (f : File) (data : list Byte.byte)
    (cap : nat) : option (Outcome error) :=
  match fuel with
  | O => None
  | S fuel' =>
      if growPanics (List.length data) cap then Some Panicked
      else
        let cap := capAfterGrow (List.length data) cap in
        let '(chunk, err, f') := Read f (cap - List.length data) in
        if (cap - List.length data <? List.length chunk)%nat then
          Some Panicked
        else
          let data := (data ++ chunk)%list in
          match err with
          | Some e =>
              Some (Returned data (if decide (e = EOF) then None else Some e))
          | None => readLoop fuel' f' data cap
          end
  end.

(** The capacity asked of [make] for the first buffer. *)
Definition initialSize (f : File) : Z :=
  let size := 0%Z in
  let size :=
    match Stat f with
    | inl size64 =>
        if (toInt size64 =? size64)%Z then toInt size64 else size
    | inr _ => size
    end in
  let size := toInt (size + 1) in
  if (size <? 512)%Z then 512%Z else size.

Definition ReadFile (fuel : nat) (name : string)
  : option (Outcome error) :=
  match Open name with
  | inr err => Some (Returned [] (Some err))
  | inl f =>
      let size := Z.to_nat (initialSize f) in
      (* data := make([]byte, 0, size) *)
      if allocates size then readLoop fuel f [] size else Some Panicked
  end.

(** The reads of the loop, seen from the file: started in state [f] with
    [len] bytes in a buffer of capacity [cap], the successive calls of
    [Read] deliver [data] in all, every call but the last without an
    error, the last one with the error [e]; every buffer the loop needs
    can be allocated and no call reports more bytes than its buffer
    holds. *)
Inductive readsEnd : File -> nat -> nat -> list Byte.byte -> error -> Prop :=
| reads_last f len cap chunk e f' :
    growPanics len cap = false ->
    Read f (capAfterGrow len cap - len) = (chunk, Some e, f') ->
    (List.length chunk <= capAfterGrow len cap - len)%nat ->
    readsEnd f len cap chunk e
| reads_more f len cap chunk f' rest e :
    growPanics len cap = false ->
    Read f (capAfterGrow len cap - len) = (chunk, None, f') ->
    (List.length chunk <= capAfterGrow len cap - len)%nat ->
    readsEnd f' (len + List.length chunk) (capAfterGrow len cap) rest e ->
    readsEnd f len cap (chunk ++ rest)%list e.

End ReadFile.

End os.

(** ** Interface Lowering *)

Module interface_lowering.

(** Modelled from the spec: the Interface Lowering pass is not among the
    sources; this is section 4.2 of the specification.  The input is what
    the whole-program scan collects: the concrete types in declaration
    order, the method implementations they provide, and the call sites
    that invoke a method on an interface value. *)
Record Impl : Type := mkImpl {
  impl_type : string;
  impl_method : string;
  impl_func : string
}.

Record CallSite : Type := mkCall {
  call_method : string;
  (** [true] when the call is provably made on a nil interface value *)
  call_nil : bool;
  (** [false] when the dynamic type cannot be enumerated statically *)
  call_enumerable : bool
}.

Record Input : Type := mkInput {
  types : list string;
  impls : list Impl;
  calls : list CallSite
}.

(** What a call site is rewritten to. *)
Inductive Lowered : Type :=
| DirectCall (func : string)
| CompareChain (cases : list (nat * string))
| TableCall (method : string)
| Trap.

Record Output : Type := mkOutput {
  lowered : list Lowered;
  tables : list (string * list (nat * string))
}.

Inductive Error : Type :=
| UnsupportedConstruct (call : CallSite).

Section Lowering.

(** The implementation-defined bound of a "small" implementation set. *)
Variable threshold : nat.

(** The functions with which the type [t] implements [method]. *)
Definition implsOfType (inp : Input) (method t : string) : list string :=
  map impl_func
    (List.filter
       (fun i => String.eqb (impl_type i) t
                 && String.eqb (impl_method i) method)
       (impls inp)).

(** The entry of the Interface Method Table for [method]: the pairs of a
    type id and an implementation, in the order of the type ids, which are
    the positions of the types in declaration order. *)
Fixpoint implSetFrom (inp : Input) (method : string) (id : nat)
    (ts : list string) : list (nat * string) :=
  match ts with
  | [] => []
  | t :: ts' =>
      (map (fun f => (id, f)) (implsOfType inp method t)
         ++ implSetFrom inp method (S id) ts')%list
  end.

Definition implSet (inp : Input) (method : string) : list (nat * string) :=
  remove_dups (implSetFrom inp method O (types inp)).

(** The decision for a method, by the cardinality of its implementation
    set: exactly one implementation, a small set, a larger set. *)
Definition decide_method (inp : Input) (method : string) : Lowered :=
  match implSet inp method with
  | [(_, f)] => DirectCall f
  | set =>
      if (List.length set <=? threshold)%nat then CompareChain set
      else TableCall method
  end.

(** The rewriting of one call site.  The edge case comes first: a call
    provably made on a nil interface value becomes a trap rather than any
    dispatch. *)
Definition lowerCall (inp : Input) (c : CallSite) : Lowered + Error :=
  if call_nil c then inl Trap
  else if call_enumerable c then inl (decide_method inp (call_method c))
  else inr (UnsupportedConstruct c).

Fixpoint lowerCalls (inp : Input) (cs : list CallSite)
  : list Lowered + Error :=
  match cs with
  | [] => inl []
  | c :: cs' =>
      match lowerCall inp c with
      | inl l =>
          match lowerCalls inp cs' with
          | inl ls => inl (l :: ls)
          | inr e => inr e
          end
      | inr e => inr e
      end
  end.

(** The dispatch tables of the output: one for every method that is
    called through a table. *)
Definition emitTables (inp : Input) (ls : list Lowered)
  : list (string * list (nat * string)) :=
  map (fun m => (m, implSet inp m))
    (remove_dups
       (flat_map (fun l => match l with TableCall m => [m] | _ => [] end) ls)).

Definition lower (inp : Input) : Output + Error :=
  match lowerCalls inp (calls inp) with
  | inl ls => inl (mkOutput ls (emitTables inp ls))
  | inr e => inr e
  end.

End Lowering.

End interface_lowering.

(** ** Whole-Program Dead-Code Elimination *)

Module dce.

(** Modelled from the spec: the Dead-Code Elimination pass is not among
    the sources; this is section 4.6 of the specification.  A program is
    its symbols (functions and globals), each with the symbols it calls
    or refers to, the declared entry points, and the implementations named
    by the surviving entries of the Interface Method Table. *)
Record Symbol : Type := mkSymbol {
  sym_name : string;
  sym_is_function : bool;
  sym_refs : list string
}.

Record Program : Type := mkProgram {
  symbols : list Symbol;
  entry_points : list string;
  table_entries : list string
}.

(** Where the reachability computation starts. *)
Definition roots (p : Program) : gset string :=
  list_to_set (entry_points p ++ table_entries p)%list.

(** The symbols called or referred to by the members of [seen]. *)
Definition successors (p : Program) (seen : gset string) : gset string :=
  list_to_set
    (flat_map
       (fun s => if bool_decide (sym_name s ∈ seen) then sym_refs s else [])
       (symbols p)).

Definition expand (p : Program) (seen : gset string) : gset string :=
  seen ∪ successors p seen.

Fixpoint expandN (p : Program) (n : nat) (seen : gset string) : gset string :=
  match n with
  | O => seen
  | S n' => expandN p n' (expand p seen)
  end.

(** Every name the computation can meet. *)
Definition universe (p : Program) : gset string :=
  roots p ∪ list_to_set (flat_map sym_refs (symbols p)).

(** Transitive reachability: one round per name is enough. *)
Definition reachableSet (p : Program) : gset string :=
  expandN p (size (universe p)) (roots p).

(** The pass: everything unreached is dropped. *)
Definition eliminate (p : Program) : Program :=
  mkProgram
    (List.filter (fun s => bool_decide (sym_name s ∈ reachableSet p))
       (symbols p))
    (entry_points p) (table_entries p).

(** [refers p a b]: a symbol named [a] calls or refers to [b]. *)
Definition refers (p : Program) (a b : string) : Prop :=
  exists s, In s (symbols p) /\ sym_name s = a /\ In b (sym_refs s).

(** Transitive reachability over calls and references. *)
Inductive reaches (p : Program) (a : string) : string -> Prop :=
| reaches_here : reaches p a a
| reaches_next b c : reaches p a b -> refers p b c -> reaches p a c.

End dce.

(** ** [os.WriteFile] *)

Module os_write.

(** The calls [WriteFile] makes on package [os], in program order. *)
Inductive Call : Type :=
| CallOpenFile (name : string) (flag : Z) (perm : Z)
| CallWrite (data : list Byte.byte)
| CallClose.

Section WriteFile.

(** The rest of package [os]: the three flags, [OpenFile], and the methods
    [Write] and [Close] of an open file.  [Write] answers the number of
    bytes written, the error and the state of the file afterwards. *)
Variable File : Type.
Variable error : Type.
Variable O_WRONLY : Z.
Variable O_CREATE : Z.
Variable O_TRUNC : Z.
Variable OpenFile : string -> Z -> Z -> File + error.
Variable Write : File -> list Byte.byte -> nat * option error * File.
Variable Close : File -> option error.

(** The result is the error returned and the calls made. *)
Definition WriteFile (name : string) (data : list Byte.byte) (perm : Z)
  : option error * list Call :=
  let flag := Z.lor (Z.lor O_WRONLY O_CREATE) O_TRUNC in
  match OpenFile name flag perm with
  | inr err => (Some err, [CallOpenFile name flag perm])
  | inl f =>
      let '(_, err, f) := Write f data in
      let err1 := Close f in
      let err :=
        match err1, err with
        | Some e1, None => Some e1
        | _, _ => err
        end in
      (err, [CallOpenFile name flag perm; CallWrite data; CallClose])
  end.

End WriteFile.

End os_write.

(** ** Readers and texts used to state properties

    Nothing here is part of the program. *)

Module variants.

(** The text [s] with Windows line ends: a carriage return before every
    line feed. *)
Fixpoint toCRLF (s : string) : string :=
  match s with
  | EmptyString => EmptyString
  | String c rest =>
      if Ascii.eqb c LF then String CR (String LF (toCRLF rest))
      else String c (toCRLF rest)
  end.

(** A [define] line printed with and without the names of its numbered
    parameters.  A parameter is given by the digits of its name, the [)] or
    [,] that closes it and the text up to the next name: [withNames] puts
    [ %N] before each closing character, [withoutNames] leaves it out. *)
Fixpoint withNames (params : list (string * ascii * string)) : string :=
  match params with
  | [] => EmptyString
  | (d, g, text) :: rest =>
      String " " (String "%" (d ++ String g (text ++ withNames rest)))
  end.

Fixpoint withoutNames (params : list (string * ascii * string)) : string :=
  match params with
  | [] => EmptyString
  | (_, g, text) :: rest => String g (text ++ withoutNames rest)
  end.

(** [numbered s]: somewhere in [s] a space, a [%] and a digit stand in a
    row, as at the start of a numbered parameter name. *)
Definition numbered (s : string) : Prop :=
  exists (a : string) (c : ascii) (b : string),
    regexp.isDigit c = true
    /\ s = a ++ String " " (String "%" (String c b)).

Definition startsNumbered (s : string) : bool :=
  match s with
  | String a (String b (String c _)) =>
      Ascii.eqb a " " && Ascii.eqb b "%" && regexp.isDigit c
  | _ => false
  end.

Fixpoint hasNumbered (s : string) : bool :=
  match s with
  | EmptyString => false
  | String _ s' => startsNumbered s || hasNumbered s'
  end.

(** What follows a text without a numbered name begins no digit and no
    [%]: then no match of the expression starts inside that text. *)
Definition startsPlain (t : string) : Prop :=
  match t with
  | EmptyString => True
  | String c _ => c <> "%"%char /\ regexp.isDigit c = false
  end.

(** A parameter as [withNames] takes it: a name of one digit or more, a
    closing [)] or [,], and a text without a numbered name. *)
Definition wellFormed (p : string * ascii * string) : Prop :=
  let '(d, g, text) := p in
  d <> EmptyString /\ regexp.allDigits d = true
  /\ (g = ")"%char \/ g = ","%char)
  /\ ~ numbered text.

(** A file held in memory, as the bytes not yet read: [Read] hands out as
    many of them as the buffer takes and reports the error [eof] once none
    is left. *)
Definition memRead (eof : nat) (f : list Byte.byte) (n : nat)
  : list Byte.byte * option nat * list Byte.byte :=
  (firstn n f, match f with [] => Some eof | _ => None end, skipn n f).

Section ReaderContract.

Variable File : Type.
Variable error : Type.
Variable EOF : error.
Variable Read : File -> nat -> list Byte.byte * option error * File.

(** [contents f] is what is left to read in state [f].  [Read] keeps the
    contract of [io.Reader] for a file without read errors: it delivers a
    prefix of what is left that fits the buffer, reports no error but
    [io.EOF], reports [io.EOF] only when nothing is left after the call,
    and either makes progress or reports [io.EOF] when the buffer is not
    empty. *)
Definition deliversContents (contents : File -> list Byte.byte) : Prop :=
  forall (f : File) (n : nat) (chunk : list Byte.byte) (err : option error)
         (f' : File),
    Read f n = (chunk, err, f') ->
    contents f = (chunk ++ contents f')%list
    /\ (List.length chunk <= n)%nat
    /\ (err = None \/ err = Some EOF /\ contents f' = [])
    /\ ((0 < n)%nat -> chunk <> [] \/ err = Some EOF).

End ReaderContract.

End variants.

(** * Properties *)

(** ** Strings *)

Lemma append_cons (c : ascii) (s t : string) :
  String c s ++ t = String c (s ++ t).
Proof. reflexivity. Qed.

Lemma append_empty_r (s : string) : s ++ "" = s.
Proof.
  induction s as [|c s IH]; [reflexivity|].
  rewrite append_cons, IH. reflexivity.
Qed.

Lemma append_assoc (s t u : string) : (s ++ t) ++ u = s ++ (t ++ u).
Proof.
  induction s as [|c s IH]; [reflexivity|].
  rewrite !append_cons, IH. reflexivity.
Qed.

Lemma Split_not_nil (s : string) (sep : ascii) : strings.Split s sep <> [].
Proof.
  destruct s as [|c s]; simpl; [discriminate|].
  destruct (Ascii.eqb c sep); [discriminate|].
  destruct (strings.Split s sep); discriminate.
Qed.

Lemma Split_first_piece (line : string) :
  hd EmptyString (strings.Split line ";") = declarative.dropComment line.
Proof.
  induction line as [|c line IH]; simpl; [reflexivity|].
  destruct (Ascii.eqb c ";"); [reflexivity|].
  destruct (strings.Split line ";") as [|piece pieces] eqn:E.
  - now apply Split_not_nil in E.
  - simpl in *. now rewrite IH.
Qed.

Lemma sliceTo_append (body rest : string) :
  strings.sliceTo (body ++ rest) (String.length body) = body.
Proof.
  induction body as [|c body IH]; simpl.
  - destruct rest; reflexivity.
  - now rewrite IH.
Qed.

(** ** The model on small inputs *)

Example Split_lines :
  strings.Split ("a" ++ String LF (String LF ("b" ++ String LF ""))) LF
  = ["a"; ""; "b"; ""].
Proof. reflexivity. Qed.

Example Split_empty : strings.Split "" LF = [""].
Proof. reflexivity. Qed.

Example TrimRight_spaces_and_returns :
  strings.TrimRight ("a b  " ++ String CR " ") (String CR " ") = "a b".
Proof. reflexivity. Qed.

Example Index_datalayout :
  strings.Index ("; ModuleID" ++ String LF "target datalayout = x")
    (String LF "target datalayout = ") = 10%Z
  /\ strings.Index "abc" "zz" = (-1)%Z.
Proof. split; reflexivity. Qed.

Example align_leftmost_match :
  regexp.alignFind "x, align 4, align 16" = Some 10%nat
  /\ regexp.alignReplaceAllString "x, align 4, align 16" "" = "x, align 4"
  /\ regexp.alignMatchString "x, align 4 " = false.
Proof. repeat split; reflexivity. Qed.

Example param_names_removed :
  regexp.paramReplaceAllString "define void @f(i32 %0, i8* %12) {"
  = "define void @f(i32, i8*) {"
  /\ regexp.paramReplaceAllString "f( %1 %2, %3) %x, %4" = "f( %1,) %x, %4".
Proof. split; reflexivity. Qed.

Example filter_llvm11 :
  filterIrrelevantIRLines 11
    ["; ModuleID = 'x'"; "source_filename = x"; "";
     "define void @f(i32 %0) { ; c" ++ String CR ""; "attributes #0 = { x }"]
  = ["define void @f(i32 %0) {"; "attributes #0 = { x }"].
Proof. reflexivity. Qed.

Example filter_llvm9 :
  filterIrrelevantIRLines 9
    ["; ModuleID = 'x'"; "source_filename = x"; "";
     "define void @f(i32 %0) { ; c" ++ String CR ""; "attributes #0 = { x }"]
  = ["define void @f(i32) {"].
Proof. reflexivity. Qed.

Example fuzzy_align_either_side :
  fuzzyEqualIR 11 ("a, align 4" ++ String LF "b") ("a" ++ String LF "b, align 8")
  = true.
Proof. reflexivity. Qed.

Example fuzzy_length_differs :
  fuzzyEqualIR 11 "a" ("a" ++ String LF "b") = false.
Proof. reflexivity. Qed.

(** ** The filter loop computes the declarative filter *)

Lemma filterLoop_relevantLines (v : Z) (lines out : list string) :
  filterLoop v lines out = (out ++ declarative.relevantLines v lines)%list.
Proof.
  revert out. induction lines as [|line rest IH]; intros out.
  - simpl. now rewrite app_nil_r.
  - unfold declarative.relevantLines in *. cbn [filterLoop map List.filter].
    rewrite Split_first_piece. fold (declarative.cleanLine line).
    unfold declarative.keepLine at 1.
    destruct (String.eqb (declarative.cleanLine line) "") eqn:E1;
      cbn [negb andb]; [apply IH|].
    destruct (strings.HasPrefix (declarative.cleanLine line) "source_filename = ")
      eqn:E2; cbn [negb andb]; [apply IH|].
    destruct ((v <? 10)%Z && strings.HasPrefix (declarative.cleanLine line) "attributes ")
      eqn:E3; cbn [negb andb]; [apply IH|].
    rewrite IH. cbn [map]. unfold declarative.rewriteLine at 2.
    now rewrite <- app_assoc.
Qed.

Lemma filterIrrelevantIRLines_relevantLines (v : Z) (lines : list string) :
  filterIrrelevantIRLines v lines = declarative.relevantLines v lines.
Proof. unfold filterIrrelevantIRLines. now rewrite filterLoop_relevantLines. Qed.

(** ** The comparison loop *)

Lemma linesMatch_refl (line : string) : linesMatch line line = true.
Proof.
  unfold linesMatch. rewrite Bool.eqb_reflx. cbn. apply String.eqb_refl.
Qed.

Lemma linesMatch_sym (line1 line2 : string) :
  linesMatch line1 line2 = linesMatch line2 line1.
Proof.
  unfold linesMatch.
  destruct (regexp.alignMatchString line1), (regexp.alignMatchString line2);
    cbn; apply String.eqb_sym.
Qed.

(** The loop visits the pairs of lines with equal index: with [pre] the
    lines of [lines2] before index [i], it succeeds when every remaining
    pair matches. *)
Lemma compareLoop_Forall2 (todo pre rest2 : list string) :
  List.length todo = List.length rest2 ->
  compareLoop (List.length pre) todo (pre ++ rest2)%list = true
  <-> Forall2 (fun a b => linesMatch a b = true) todo rest2.
Proof.
  revert pre rest2. induction todo as [|line1 todo IH]; intros pre rest2 Hlen.
  - destruct rest2; [|discriminate]. simpl. split; [constructor|reflexivity].
  - destruct rest2 as [|line2 rest2]; [discriminate|].
    injection Hlen as Hlen. cbn [compareLoop].
    rewrite app_nth2, Nat.sub_diag by lia. cbn [nth].
    specialize (IH (pre ++ [line2])%list rest2 Hlen).
    rewrite <- app_assoc, length_app, Nat.add_1_r in IH. cbn [app] in IH.
    destruct (linesMatch line1 line2) eqn:E; cbn [negb].
    + rewrite IH. split; [now constructor|].
      intros H. now inversion H.
    + split; [discriminate|]. intros H. inversion H. congruence.
Qed.

Lemma Forall2_same_length_lines (R : string -> string -> Prop)
    (l1 l2 : list string) :
  Forall2 R l1 l2 -> List.length l1 = List.length l2.
Proof. induction 1; simpl; congruence. Qed.

Lemma Forall2_iff_lines (R1 R2 : string -> string -> Prop)
    (l1 l2 : list string) :
  (forall a b, R1 a b <-> R2 a b) -> Forall2 R1 l1 l2 <-> Forall2 R2 l1 l2.
Proof.
  intros HR. split; induction 1; constructor; try assumption; now apply HR.
Qed.

Lemma Forall2_linesMatch_refl (l : list string) :
  Forall2 (fun a b => linesMatch a b = true) l l.
Proof. induction l; constructor; [apply linesMatch_refl | assumption]. Qed.

Lemma Forall2_linesMatch_sym (l1 l2 : list string) :
  Forall2 (fun a b => linesMatch a b = true) l1 l2 ->
  Forall2 (fun a b => linesMatch a b = true) l2 l1.
Proof. induction 1; constructor; [now rewrite linesMatch_sym | assumption]. Qed.

(** The comparison in terms of the per-line test on the filtered lines. *)
Lemma fuzzyEqualIR_linesMatch (v : Z) (s1 s2 : string) :
  fuzzyEqualIR v s1 s2 = true
  <-> Forall2 (fun a b => linesMatch a b = true)
        (filterIrrelevantIRLines v (strings.Split s1 LF))
        (filterIrrelevantIRLines v (strings.Split s2 LF)).
Proof.
  unfold fuzzyEqualIR.
  set (l1 := filterIrrelevantIRLines v (strings.Split s1 LF)).
  set (l2 := filterIrrelevantIRLines v (strings.Split s2 LF)).
  destruct (Nat.eqb_spec (List.length l1) (List.length l2)) as [Hlen|Hlen];
    cbn [negb].
  - apply (compareLoop_Forall2 l1 [] l2 Hlen).
  - split; [discriminate|]. intros H.
    now apply Forall2_same_length_lines in H.
Qed.

(** ** The expression [, align [0-9]+$] *)

Lemma stripLiteral_Some (lit s r : string) :
  regexp.stripLiteral lit s = Some r <-> s = lit ++ r.
Proof.
  revert s. induction lit as [|a lit IH]; intros s; simpl.
  - split; intros H; [now injection H as -> | now subst].
  - destruct s as [|b s].
    + split; discriminate.
    + destruct (Ascii.eqb_spec a b) as [->|Hab].
      * rewrite IH. split; intros H; [now subst | now injection H].
      * split; [discriminate|]. intros H. injection H as H _. congruence.
Qed.

Lemma alignAt_iff (s : string) :
  regexp.alignAt s = true
  <-> exists d, s = ", align " ++ d
                /\ d <> EmptyString /\ regexp.allDigits d = true.
Proof.
  unfold regexp.alignAt.
  destruct (regexp.stripLiteral ", align " s) as [d|] eqn:E.
  - apply stripLiteral_Some in E. rewrite andb_true_iff, negb_true_iff.
    split.
    + intros [Hne Hd]. exists d. split; [assumption|]. split; [|assumption].
      intros ->. now rewrite String.eqb_refl in Hne.
    + intros (d' & Hs & Hne & Hd). rewrite E in Hs.
      apply (String.app_inj ", align ") in Hs. subst d'.
      split; [|assumption]. now apply String.eqb_neq.
  - split; [discriminate|]. intros (d & Hs & _).
    apply stripLiteral_Some in Hs. congruence.
Qed.

Lemma In_list_ascii_append (c : ascii) (s t : string) :
  In c (list_ascii_of_string (s ++ t))
  <-> In c (list_ascii_of_string s) \/ In c (list_ascii_of_string t).
Proof.
  induction s as [|a s IH]; simpl; [tauto|]. rewrite IH. tauto.
Qed.

Lemma allDigits_no_comma (d : string) :
  regexp.allDigits d = true -> ~ In ","%char (list_ascii_of_string d).
Proof.
  induction d as [|c d IH]; simpl; [tauto|].
  rewrite andb_true_iff. intros [Hc Hd] [->|Hin]; [discriminate|].
  now apply IH.
Qed.

(** A match at the start of the text leaves no comma behind its first
    byte, so no second match can start later. *)
Lemma alignAt_tail_no_comma (c : ascii) (t : string) :
  regexp.alignAt (String c t) = true -> ~ In ","%char (list_ascii_of_string t).
Proof.
  rewrite alignAt_iff. intros (d & Hs & _ & Hd).
  injection Hs as _ ->. simpl.
  intros [H|[H|[H|[H|[H|[H|[H|H]]]]]]]; try discriminate.
  now apply allDigits_no_comma in Hd.
Qed.

Lemma alignFind_at_start (s : string) :
  regexp.alignAt s = true -> regexp.alignFind s = Some O.
Proof. destruct s; cbn [regexp.alignFind]; now intros ->. Qed.

Lemma alignFind_annotated (body d : string) :
  d <> EmptyString -> regexp.allDigits d = true ->
  regexp.alignFind (body ++ ", align " ++ d) = Some (String.length body).
Proof.
  intros Hne Hd. induction body as [|c body IH].
  - change ("" ++ ", align " ++ d) with (", align " ++ d).
    apply alignFind_at_start, alignAt_iff. eauto.
  - rewrite append_cons. cbn [regexp.alignFind].
    destruct (regexp.alignAt (String c (body ++ ", align " ++ d))) eqn:E.
    + apply alignAt_tail_no_comma in E. exfalso. apply E.
      apply In_list_ascii_append. right. simpl. now left.
    + now rewrite IH.
Qed.

Lemma alignFind_Some (s : string) (i : nat) :
  regexp.alignFind s = Some i ->
  exists body d, s = body ++ ", align " ++ d /\ String.length body = i
                 /\ d <> EmptyString /\ regexp.allDigits d = true.
Proof.
  revert i. induction s as [|c s IH]; intros i.
  - simpl. discriminate.
  - cbn [regexp.alignFind].
    destruct (regexp.alignAt (String c s)) eqn:E.
    + intros [= <-]. apply alignAt_iff in E as (d & Hs & Hne & Hd).
      exists EmptyString, d. auto.
    + destruct (regexp.alignFind s) as [j|]; [|discriminate].
      intros [= <-]. destruct (IH j eq_refl) as (body & d & -> & <- & Hne & Hd).
      exists (String c body), d. auto.
Qed.

Lemma alignMatchString_iff (s : string) :
  regexp.alignMatchString s = true <-> declarative.endsWithAlign s.
Proof.
  unfold regexp.alignMatchString, declarative.endsWithAlign. split.
  - destruct (regexp.alignFind s) as [i|] eqn:E; [|discriminate]. intros _.
    apply alignFind_Some in E as (body & d & Hs & _ & Hne & Hd). eauto.
  - intros (body & d & -> & Hne & Hd). now rewrite alignFind_annotated.
Qed.

Lemma alignFind_annotated_match (body d : string) :
  d <> EmptyString -> regexp.allDigits d = true ->
  regexp.alignMatchString (body ++ ", align " ++ d) = true.
Proof.
  intros Hne Hd. unfold regexp.alignMatchString.
  now rewrite alignFind_annotated.
Qed.

Lemma alignReplace_annotated (body d : string) :
  d <> EmptyString -> regexp.allDigits d = true ->
  regexp.alignReplaceAllString (body ++ ", align " ++ d) "" = body.
Proof.
  intros Hne Hd. unfold regexp.alignReplaceAllString.
  rewrite alignFind_annotated by assumption.
  now rewrite sliceTo_append, append_empty_r.
Qed.

Lemma alignReplace_unannotated (s : string) :
  regexp.alignMatchString s = false -> regexp.alignReplaceAllString s "" = s.
Proof.
  unfold regexp.alignMatchString, regexp.alignReplaceAllString.
  now destruct (regexp.alignFind s).
Qed.

(** A pair of corresponding filtered lines splits the comparison in
    three: the lines before, the pair, the lines after. *)
Lemma fuzzyEqualIR_at_pair (v : Z) (s1 s2 : string)
    (pre1 pre2 post1 post2 : list string) (line1 line2 : string) :
  filterIrrelevantIRLines v (strings.Split s1 LF) = (pre1 ++ line1 :: post1)%list ->
  filterIrrelevantIRLines v (strings.Split s2 LF) = (pre2 ++ line2 :: post2)%list ->
  List.length pre1 = List.length pre2 ->
  fuzzyEqualIR v s1 s2 = true
  <-> Forall2 (fun a b => linesMatch a b = true) pre1 pre2
      /\ linesMatch line1 line2 = true
      /\ Forall2 (fun a b => linesMatch a b = true) post1 post2.
Proof.
  intros H1 H2 Hlen. rewrite fuzzyEqualIR_linesMatch, H1, H2. split.
  - intros H. apply Forall2_app_inv in H as [Hpre Hrest]; [|assumption].
    inversion Hrest; subst. auto.
  - intros (Hpre & Hline & Hpost). apply Forall2_app; [assumption|].
    now constructor.
Qed.

Lemma linesMatch_one_sided (line1 line2 : string) :
  regexp.alignMatchString line1 <> regexp.alignMatchString line2 ->
  linesMatch line1 line2
  = String.eqb (regexp.alignReplaceAllString line1 "")
      (regexp.alignReplaceAllString line2 "").
Proof.
  unfold linesMatch.
  destruct (regexp.alignMatchString line1), (regexp.alignMatchString line2);
    cbn; congruence.
Qed.

Lemma linesMatch_two_sided (line1 line2 : string) :
  regexp.alignMatchString line1 = regexp.alignMatchString line2 ->
  linesMatch line1 line2 = String.eqb line1 line2.
Proof. unfold linesMatch. intros ->. now rewrite Bool.eqb_reflx. Qed.

(** The test of the loop body is the alignment rule. *)
Lemma linesMatch_alignRule (line1 line2 : string) :
  linesMatch line1 line2 = true <-> declarative.alignRule line1 line2.
Proof.
  unfold declarative.alignRule, declarative.annotates.
  destruct (regexp.alignMatchString line1) eqn:E1,
           (regexp.alignMatchString line2) eqn:E2.
  - rewrite linesMatch_two_sided, String.eqb_eq by congruence.
    split; [auto|]. intros [H|[[H _]|[H _]]]; [assumption| |];
      exfalso; apply H; now apply alignMatchString_iff.
  - rewrite linesMatch_one_sided, String.eqb_eq by congruence.
    rewrite (alignReplace_unannotated line2 E2).
    apply alignMatchString_iff in E1 as (body & d & -> & Hne & Hd).
    rewrite alignReplace_annotated by assumption. split.
    + intros ->. right. left. split; [|eauto].
      intros H. apply alignMatchString_iff in H. congruence.
    + intros [H|[[_ (d' & H & Hne' & Hd')]|[H _]]].
      * subst line2. rewrite alignFind_annotated_match in E2 by assumption.
        discriminate.
      * rewrite <- (alignReplace_annotated body d Hne Hd), H.
        now apply alignReplace_annotated.
      * exfalso. apply H. exists body, d. auto.
  - rewrite linesMatch_one_sided, String.eqb_eq by congruence.
    rewrite (alignReplace_unannotated line1 E1).
    apply alignMatchString_iff in E2 as (body & d & -> & Hne & Hd).
    rewrite alignReplace_annotated by assumption. split.
    + intros ->. right. right. split; [|eauto].
      intros H. apply alignMatchString_iff in H. congruence.
    + intros [H|[[H _]|[_ (d' & H & Hne' & Hd')]]].
      * subst line1. rewrite alignFind_annotated_match in E1 by assumption.
        discriminate.
      * exfalso. apply H. exists body, d. auto.
      * rewrite <- (alignReplace_annotated body d Hne Hd), H.
        symmetry. now apply alignReplace_annotated.
  - rewrite linesMatch_two_sided, String.eqb_eq by congruence.
    split; [auto|]. intros [H|[[_ (d & H & Hne & Hd)]|[_ (d & H & Hne & Hd)]]];
      [assumption| |]; exfalso.
    + subst line1. rewrite alignFind_annotated_match in E1 by assumption.
      discriminate.
    + subst line2. rewrite alignFind_annotated_match in E2 by assumption.
      discriminate.
Qed.

(** [fuzzyEqualIR] in terms of the declarative filter and the alignment
    rule. *)
Lemma fuzzyEqualIR_true_iff (v : Z) (s1 s2 : string) :
  fuzzyEqualIR v s1 s2 = true
  <-> Forall2 declarative.alignRule
        (declarative.relevantLines v (strings.Split s1 LF))
        (declarative.relevantLines v (strings.Split s2 LF)).
Proof.
  rewrite fuzzyEqualIR_linesMatch, !filterIrrelevantIRLines_relevantLines.
  apply Forall2_iff_lines. apply linesMatch_alignRule.
Qed.

(** ** The claims about [fuzzyEqualIR] *)

(** C1, as the specification states it, fails: with a filter that drops
    comment text, blank lines and [source_filename = ] lines and nothing
    else, the two lines of the specification's own example differ by the
    space before the comment, and yet the code finds them equal; and for an
    LLVM before version 10 the code also ignores [attributes ] lines. *)
Lemma C1_stated_filter_counterexample :
  (fuzzyEqualIR 11 "add i32 1, 2 ; comment" "add i32 1, 2" = true
   /\ ~ declarative.statedEqual "add i32 1, 2 ; comment" "add i32 1, 2")
  /\ (fuzzyEqualIR 9 "attributes #0 = { nounwind }" "" = true
      /\ ~ declarative.statedEqual "attributes #0 = { nounwind }" "").
Proof.
  split; (split; [reflexivity|]); intros [Hlen H].
  - apply (Forall2_iff_lines _ _ _ _ linesMatch_alignRule) in H.
    vm_compute in H. inversion H as [|? ? ? ? Hrule _]; subst.
    discriminate Hrule.
  - vm_compute in Hlen. discriminate Hlen.
Qed.

(** C1 (amended): [fuzzyEqualIR v s1 s2] returns [true] exactly when,
    after the same filter on both sides, the two line sequences have equal
    length and corresponding lines are equal up to the alignment rule.  The
    filter takes from every line the text from the first [;] on and then
    the trailing spaces and carriage returns, drops the lines that are then
    empty or begin with [source_filename = ] and, for an LLVM major version
    below 10 only, drops the lines that begin with [attributes ] and
    removes the parameter names [ %N] before [)] or [,] in the lines that
    begin with [define ].  In particular [add i32 1, 2 ; comment] compares
    equal to [add i32 1, 2]. *)
Theorem C1_fuzzyEqualIR_filtered_lines :
  (forall (v : Z) (s1 s2 : string),
      fuzzyEqualIR v s1 s2 = true
      <-> List.length (declarative.relevantLines v (strings.Split s1 LF))
          = List.length (declarative.relevantLines v (strings.Split s2 LF))
          /\ Forall2 declarative.alignRule
               (declarative.relevantLines v (strings.Split s1 LF))
               (declarative.relevantLines v (strings.Split s2 LF)))
  /\ (forall v : Z,
         fuzzyEqualIR v "add i32 1, 2 ; comment" "add i32 1, 2" = true).
Proof.
  split.
  - intros v s1 s2. rewrite fuzzyEqualIR_true_iff. split.
    + intros H. split; [|assumption].
      now apply Forall2_same_length_lines in H.
    + now intros [_ H].
  - intros v. unfold fuzzyEqualIR, filterIrrelevantIRLines.
    replace (strings.Split "add i32 1, 2 ; comment" LF)
      with ["add i32 1, 2 ; comment"] by reflexivity.
    replace (strings.Split "add i32 1, 2" LF)
      with ["add i32 1, 2"] by reflexivity.
    cbn [filterLoop]. generalize (v <? 10)%Z. intros [|]; reflexivity.
Qed.

(** C2: for a pair of corresponding filtered lines of which exactly one
    ends with an annotation [, align N], the equality test of
    [fuzzyEqualIR] is made on the two lines without that annotation: with
    [plain1] and [plain2] the two lines, the annotated one taken without
    its annotation, the test is [plain1 = plain2]; so the whole comparison
    succeeds exactly when the lines before and after the pair match and
    [plain1 = plain2], and a line that differs from its counterpart only
    by such a trailing annotation passes the test. *)
Theorem C2_one_sided_annotation_is_stripped
    (v : Z) (s1 s2 : string) (pre1 pre2 post1 post2 : list string)
    (line1 line2 plain1 plain2 digits : string) :
  filterIrrelevantIRLines v (strings.Split s1 LF) = (pre1 ++ line1 :: post1)%list ->
  filterIrrelevantIRLines v (strings.Split s2 LF) = (pre2 ++ line2 :: post2)%list ->
  List.length pre1 = List.length pre2 ->
  digits <> EmptyString -> regexp.allDigits digits = true ->
  (line1 = plain1 ++ ", align " ++ digits
   /\ line2 = plain2 /\ ~ declarative.endsWithAlign line2)
  \/ (line1 = plain1 /\ ~ declarative.endsWithAlign line1
      /\ line2 = plain2 ++ ", align " ++ digits) ->
  linesMatch line1 line2 = String.eqb plain1 plain2
  /\ (fuzzyEqualIR v s1 s2 = true
      <-> Forall2 (fun a b => linesMatch a b = true) pre1 pre2
          /\ plain1 = plain2
          /\ Forall2 (fun a b => linesMatch a b = true) post1 post2)
  /\ (plain1 = plain2 -> linesMatch line1 line2 = true).
Proof.
  intros H1 H2 Hlen Hne Hd Hone.
  assert (Hm : linesMatch line1 line2 = String.eqb plain1 plain2).
  { destruct Hone as [(-> & -> & Hplain)|(-> & Hplain & ->)].
    - assert (Hno : regexp.alignMatchString plain2 = false).
      { destruct (regexp.alignMatchString plain2) eqn:E; [|reflexivity].
        now apply alignMatchString_iff in E. }
      rewrite linesMatch_one_sided
        by (rewrite alignFind_annotated_match, Hno by assumption; discriminate).
      rewrite alignReplace_annotated by assumption.
      now rewrite alignReplace_unannotated.
    - assert (Hno : regexp.alignMatchString plain1 = false).
      { destruct (regexp.alignMatchString plain1) eqn:E; [|reflexivity].
        now apply alignMatchString_iff in E. }
      rewrite linesMatch_one_sided
        by (rewrite alignFind_annotated_match, Hno by assumption; discriminate).
      rewrite alignReplace_annotated by assumption.
      now rewrite alignReplace_unannotated. }
  split; [exact Hm|]. split.
  - rewrite (fuzzyEqualIR_at_pair v s1 s2 pre1 pre2 post1 post2 line1 line2)
      by assumption.
    now rewrite Hm, String.eqb_eq.
  - intros ->. rewrite Hm. apply String.eqb_refl.
Qed.

(** C8: for every LLVM version, [fuzzyEqualIR] is symmetric and
    reflexive. *)
Theorem C8_fuzzyEqualIR_symmetric_reflexive :
  forall v : Z,
    (forall s1 s2 : string, fuzzyEqualIR v s1 s2 = fuzzyEqualIR v s2 s1)
    /\ (forall s : string, fuzzyEqualIR v s s = true).
Proof.
  intros v. split.
  - intros s1 s2. apply Bool.eq_true_iff_eq.
    rewrite !fuzzyEqualIR_linesMatch.
    split; apply Forall2_linesMatch_sym.
  - intros s. apply fuzzyEqualIR_linesMatch, Forall2_linesMatch_refl.
Qed.

(** C9: when two corresponding filtered lines both end with an annotation
    [, align N], the test of [fuzzyEqualIR] is the equality of the lines as
    they are, annotations included; so the comparison returns [false] when
    the two lines differ, and in particular when they are the same text
    followed by different alignment values. *)
Theorem C9_two_sided_annotations_are_compared
    (v : Z) (s1 s2 : string) (pre1 pre2 post1 post2 : list string)
    (line1 line2 : string) :
  filterIrrelevantIRLines v (strings.Split s1 LF) = (pre1 ++ line1 :: post1)%list ->
  filterIrrelevantIRLines v (strings.Split s2 LF) = (pre2 ++ line2 :: post2)%list ->
  List.length pre1 = List.length pre2 ->
  declarative.endsWithAlign line1 ->
  declarative.endsWithAlign line2 ->
  linesMatch line1 line2 = String.eqb line1 line2
  /\ (line1 <> line2 -> fuzzyEqualIR v s1 s2 = false)
  /\ (forall body d1 d2 : string,
         line1 = body ++ ", align " ++ d1 ->
         line2 = body ++ ", align " ++ d2 ->
         d1 <> d2 -> fuzzyEqualIR v s1 s2 = false).
Proof.
  intros H1 H2 Hlen Ha Hb.
  apply alignMatchString_iff in Ha, Hb.
  assert (Hm : linesMatch line1 line2 = String.eqb line1 line2)
    by (apply linesMatch_two_sided; congruence).
  assert (Hdiff : line1 <> line2 -> fuzzyEqualIR v s1 s2 = false).
  { intros Hne. apply Bool.not_true_is_false. intros Heq.
    apply (fuzzyEqualIR_at_pair v s1 s2 pre1 pre2 post1 post2 line1 line2)
      in Heq as (_ & Heq & _); try assumption.
    rewrite Hm in Heq. now apply String.eqb_eq in Heq. }
  split; [exact Hm|]. split; [exact Hdiff|].
  intros body d1 d2 -> -> Hd. apply Hdiff. intros Heq.
  apply String.app_inj in Heq. apply (String.app_inj ", align ") in Heq.
  contradiction.
Qed.

Lemma C2_one_sided_annotation_witness :
  linesMatch "store i32 0, i32* %x, align 4" "store i32 0, i32* %x"
  = String.eqb "store i32 0, i32* %x" "store i32 0, i32* %x"
  /\ fuzzyEqualIR 11 "store i32 0, i32* %x, align 4" "store i32 0, i32* %x"
     = true.
Proof.
  destruct (C2_one_sided_annotation_is_stripped 11
              "store i32 0, i32* %x, align 4" "store i32 0, i32* %x"
              [] [] [] []
              "store i32 0, i32* %x, align 4" "store i32 0, i32* %x"
              "store i32 0, i32* %x" "store i32 0, i32* %x" "4")
    as (Htest & Hwhole & _).
  - reflexivity.
  - reflexivity.
  - reflexivity.
  - discriminate.
  - reflexivity.
  - left. split; [reflexivity|]. split; [reflexivity|].
    intros H. apply alignMatchString_iff in H. discriminate H.
  - split; [exact Htest|]. apply Hwhole.
    split; [constructor|]. split; [reflexivity|constructor].
Defined.

Lemma C9_two_sided_annotations_witness :
  linesMatch "store i32 0, i32* %x, align 4" "store i32 0, i32* %x, align 8"
  = String.eqb "store i32 0, i32* %x, align 4" "store i32 0, i32* %x, align 8"
  /\ fuzzyEqualIR 11 "store i32 0, i32* %x, align 4"
       "store i32 0, i32* %x, align 8" = false.
Proof.
  destruct (C9_two_sided_annotations_are_compared 11
              "store i32 0, i32* %x, align 4" "store i32 0, i32* %x, align 8"
              [] [] [] []
              "store i32 0, i32* %x, align 4" "store i32 0, i32* %x, align 8")
    as (Htest & _ & Hvalues).
  - reflexivity.
  - reflexivity.
  - reflexivity.
  - exists "store i32 0, i32* %x", "4".
    split; [reflexivity|]. split; [discriminate|reflexivity].
  - exists "store i32 0, i32* %x", "8".
    split; [reflexivity|]. split; [discriminate|reflexivity].
  - split; [exact Htest|].
    apply (Hvalues "store i32 0, i32* %x" "4" "8");
      [reflexivity | reflexivity | discriminate].
Defined.

(** ** The claims about [testTransform] *)

Section HarnessProperties.

Variable Module_ : Type.
Variable ParseIR : string -> option Module_.
Variable ModuleString : Module_ -> string.
Variable llvmVersion : Z.
Variable writable : string -> bool.

Abbreviation run update :=
  (harness.testTransform Module_ ParseIR ModuleString llvmVersion writable
     update).

(** Every access of a run is to one of two files. *)
Lemma testTransform_trace_shape (update : bool) (fs : gmap string string)
    (p : string) (transform : Module_ -> Module_) :
  exists rest,
    harness.trace (run update fs p transform)
    = (harness.OpRead (p ++ ".ll") :: harness.OpStat (p ++ ".ll") :: rest)%list
    /\ (rest = []
        \/ rest = [harness.OpRead (p ++ ".out.ll")]
        \/ exists data, rest = [harness.OpWrite (p ++ ".out.ll") data]).
Proof.
  unfold harness.testTransform.
  destruct (fs !! (p ++ ".ll")) as [buf|]; [|cbn; eauto].
  destruct (ParseIR buf) as [m|]; [|cbn; eauto].
  destruct update.
  - destruct (writable (p ++ ".out.ll")); cbn; eauto 6.
  - destruct (fs !! (p ++ ".out.ll")) as [out|]; [|cbn; eauto].
    destruct (negb _); cbn; eauto.
Qed.

(** A run looks at the file system through the two files only. *)
Lemma testTransform_two_files (update : bool) (fs fs' : gmap string string)
    (p : string) (transform : Module_ -> Module_) :
  fs' !! (p ++ ".ll") = fs !! (p ++ ".ll") ->
  fs' !! (p ++ ".out.ll") = fs !! (p ++ ".out.ll") ->
  harness.trace (run update fs' p transform)
  = harness.trace (run update fs p transform)
  /\ harness.failed (run update fs' p transform)
     = harness.failed (run update fs p transform)
  /\ harness.log (run update fs' p transform)
     = harness.log (run update fs p transform)
  /\ harness.completed (run update fs' p transform)
     = harness.completed (run update fs p transform).
Proof.
  intros Hin Hout. unfold harness.testTransform. rewrite Hin, Hout.
  destruct (fs !! (p ++ ".ll")) as [buf|]; [|cbn; auto].
  destruct (ParseIR buf) as [m|]; [|cbn; auto].
  destruct update.
  - destruct (writable (p ++ ".out.ll")); cbn; auto.
  - destruct (fs !! (p ++ ".out.ll")) as [out|]; [|cbn; auto].
    destruct (negb _); cbn; auto.
Qed.

End HarnessProperties.

(** C3, as the specification states it, fails: a fixture pair stored as
    [t.in] and [t.out] is not found, the harness asks for [t.ll]; and with a
    pair stored as [t.ll] and [t.out.ll] the run succeeds without a single
    access to [t.in] or [t.out]. *)
Lemma C3_fixture_names_counterexample :
  (let fs : gmap string string :=
     <["t.in" := "ret void"]> (<["t.out" := "ret void"]> ∅) in
   let r := harness.testTransform string Some id 11 (fun _ => true) false
              fs "t" id in
   harness.failed r = true
   /\ harness.log r = [harness.CouldNotReadFile "t.ll"]
   /\ ~ In (harness.OpRead "t.in") (harness.trace r))
  /\ (let fs : gmap string string :=
        <["t.ll" := "ret void"]> (<["t.out.ll" := "ret void"]> ∅) in
      let r := harness.testTransform string Some id 11 (fun _ => true) false
                 fs "t" id in
      harness.failed r = false
      /\ harness.trace r
         = [harness.OpRead "t.ll"; harness.OpStat "t.ll";
            harness.OpRead "t.out.ll"]).
Proof.
  split.
  - split; [reflexivity|]. split; [reflexivity|].
    cbn. intros [H|[H|[]]]; discriminate H.
  - split; reflexivity.
Qed.

(** C3 (amended): the harness reads its input fixture from the file
    [<name>.ll] and its expected-output fixture from the file
    [<name>.out.ll]: a run starts by reading [<name>.ll], every access it
    makes is to one of these two files, in compare mode with an input that
    loads it reads [<name>.out.ll], and its verdict depends on the file
    system through the contents of these two files only. *)
Theorem C3_fixture_files
    (Module_ : Type) (ParseIR : string -> option Module_)
    (ModuleString : Module_ -> string) (llvmVersion : Z)
    (writable : string -> bool) (update : bool)
    (fs fs' : gmap string string) (name : string)
    (transform : Module_ -> Module_) :
  fs' !! (name ++ ".ll") = fs !! (name ++ ".ll") ->
  fs' !! (name ++ ".out.ll") = fs !! (name ++ ".out.ll") ->
  let r := harness.testTransform Module_ ParseIR ModuleString llvmVersion
             writable update fs name transform in
  let r' := harness.testTransform Module_ ParseIR ModuleString llvmVersion
              writable update fs' name transform in
  hd_error (harness.trace r) = Some (harness.OpRead (name ++ ".ll"))
  /\ (forall op, In op (harness.trace r) ->
        harness.opPath op = name ++ ".ll"
        \/ harness.opPath op = name ++ ".out.ll")
  /\ (update = false ->
      (exists buf m, fs !! (name ++ ".ll") = Some buf /\ ParseIR buf = Some m) ->
      In (harness.OpRead (name ++ ".out.ll")) (harness.trace r))
  /\ harness.trace r' = harness.trace r
  /\ harness.failed r' = harness.failed r
  /\ harness.log r' = harness.log r
  /\ harness.completed r' = harness.completed r.
Proof.
  intros Hin Hout r r'.
  destruct (testTransform_trace_shape Module_ ParseIR ModuleString llvmVersion
              writable update fs name transform) as (rest & Htrace & Hrest).
  fold r in Htrace. split; [now rewrite Htrace|]. split.
  { intros op. rewrite Htrace. cbn [In].
    intros [<-|[<-|Hop]]; [now left | now left |].
    destruct Hrest as [->|[->|[data ->]]]; cbn [In] in Hop;
      [contradiction | destruct Hop as [<-|[]]; now right
       | destruct Hop as [<-|[]]; now right]. }
  split.
  { intros -> (buf & m & Hbuf & Hm). subst r.
    unfold harness.testTransform. rewrite Hbuf, Hm.
    destruct (fs !! (name ++ ".out.ll")) as [out|]; [|cbn; auto].
    destruct (negb _); cbn; auto. }
  apply testTransform_two_files; assumption.
Qed.

Lemma C3_fixture_files_witness :
  let fs : gmap string string :=
    <["t.ll" := "ret void"]> (<["t.out.ll" := "ret void"]> ∅) in
  let r := harness.testTransform string Some id 11 (fun _ => true) false
             fs "t" id in
  hd_error (harness.trace r) = Some (harness.OpRead "t.ll")
  /\ In (harness.OpRead "t.out.ll") (harness.trace r)
  /\ harness.failed
       (harness.testTransform string Some id 11 (fun _ => true) false
          (<["unrelated.txt" := "x"]> fs) "t" id)
     = harness.failed r.
Proof.
  intros fs r.
  destruct (C3_fixture_files string Some id 11 (fun _ => true) false
              fs (<["unrelated.txt" := "x"]> fs) "t" id)
    as (Hfirst & _ & Hexpected & _ & Hfailed & _).
  - reflexivity.
  - reflexivity.
  - split; [exact Hfirst|]. split; [|exact Hfailed].
    apply Hexpected; [reflexivity|].
    exists "ret void", "ret void". split; reflexivity.
Defined.




(** ** The claim about [os.ReadFile] *)

Section ReadFileProperties.

Variable File : Type.
Variable error : Type.
Context `{EqDecision error}.
Variable EOF : error.
Variable Open : string -> File + error.
Variable Stat : File -> Z + error.
Variable Read : File -> nat -> list Byte.byte * option error * File.
Variable appendSlack : nat -> nat.
Variable allocates : nat -> bool.
Variable intBits : Z.

(** Once the reads have ended with an error the loop returns, whatever the
    fuel beyond the number of reads. *)
Lemma readLoop_readsEnd (f : File) (len cap : nat) (data : list Byte.byte)
    (e : error) :
  os.readsEnd File error Read appendSlack allocates f len cap data e ->
  forall data0 : list Byte.byte,
    List.length data0 = len ->
    exists fuel, forall fuel', (fuel <= fuel')%nat ->
      os.readLoop File error EOF Read appendSlack allocates fuel' f data0 cap
      = Some (os.Returned (data0 ++ data)%list
                (if decide (e = EOF) then None else Some e)).
Proof.
  induction 1 as [f len cap chunk e f' Hgrow HRead Hfit
                 |f len cap chunk f' rest e Hgrow HRead Hfit Hrest IH];
    intros data0 Hlen.
  - exists 1%nat. intros [|fuel'] Hfuel; [lia|].
    cbn [os.readLoop]. rewrite Hlen, Hgrow, HRead.
    destruct (Nat.ltb_spec (os.capAfterGrow appendSlack len cap - len)
                (List.length chunk)); [lia|reflexivity].
  - destruct (IH (data0 ++ chunk)%list) as [fuel Hfuel].
    { rewrite length_app. lia. }
    exists (S fuel). intros [|fuel'] Hle; [lia|].
    cbn [os.readLoop]. rewrite Hlen, Hgrow, HRead.
    destruct (Nat.ltb_spec (os.capAfterGrow appendSlack len cap - len)
                (List.length chunk)); [lia|].
    rewrite Hfuel by lia. now rewrite <- app_assoc.
Qed.

(** The loop never hands [io.EOF] to its caller. *)
Lemma readLoop_not_EOF (fuel : nat) (f : File) (data0 : list Byte.byte)
    (cap : nat) (data : list Byte.byte) (err : option error) :
  os.readLoop File error EOF Read appendSlack allocates fuel f data0 cap
  = Some (os.Returned data err) ->
  err <> Some EOF.
Proof.
  revert f data0 cap. induction fuel as [|fuel IH]; intros f data0 cap.
  - discriminate.
  - cbn [os.readLoop].
    destruct (os.growPanics appendSlack allocates _ _); [discriminate|].
    destruct (Read f _) as [[chunk [e|]] f'].
    + destruct (_ <? _)%nat; [discriminate|].
      intros [= _ <-]. destruct (decide (e = EOF)); congruence.
    + destruct (_ <? _)%nat; [discriminate|]. apply IH.
Qed.

(** C10: for a file that can be opened and whose first buffer can be
    allocated, when the reads of the loop end with the error [e] after
    delivering [data], [ReadFile] returns [data]; the error it returns is
    nil when [e] is [io.EOF] and [e] itself otherwise; and whatever the
    reads do, [ReadFile] never returns [io.EOF] for an opened file. *)
Theorem C10_ReadFile_EOF_is_nil (name : string) (f : File)
    (data : list Byte.byte) (e : error) :
  Open name = inl f ->
  allocates (Z.to_nat (os.initialSize File error Stat intBits f)) = true ->
  os.readsEnd File error Read appendSlack allocates f 0
    (Z.to_nat (os.initialSize File error Stat intBits f)) data e ->
  (exists fuel, forall fuel', (fuel <= fuel')%nat ->
     (e = EOF ->
      os.ReadFile File error EOF Open Stat Read appendSlack allocates intBits
        fuel' name
      = Some (os.Returned data None))
     /\ (e <> EOF ->
         os.ReadFile File error EOF Open Stat Read appendSlack allocates
           intBits fuel' name
         = Some (os.Returned data (Some e))))
  /\ (forall fuel data' err,
        os.ReadFile File error EOF Open Stat Read appendSlack allocates
          intBits fuel name
        = Some (os.Returned data' err) ->
        err <> Some EOF).
Proof.
  intros HOpen Hmake Hreads. split.
  - destruct (readLoop_readsEnd _ _ _ _ _ Hreads [] eq_refl) as [fuel Hfuel].
    exists fuel. intros fuel' Hle. unfold os.ReadFile.
    rewrite HOpen. cbv zeta. rewrite Hmake.
    rewrite (Hfuel fuel' Hle). cbn [app].
    split; intros He; destruct (decide (e = EOF)); congruence.
  - intros fuel data' err. unfold os.ReadFile. rewrite HOpen. cbv zeta.
    rewrite Hmake. apply readLoop_not_EOF.
Qed.

End ReadFileProperties.

(** A file held in memory: the bytes not yet read.  [Read] hands out as
    many bytes as the buffer takes and reports error [0], standing for
    [io.EOF], once nothing is left; the run time allocates up to 4096
    bytes. *)
Lemma C10_ReadFile_witness :
  let Read (f : list Byte.byte) (n : nat)
      : list Byte.byte * option nat * list Byte.byte :=
    (take n f, match f with [] => Some O | _ => None end, drop n f) in
  exists fuel,
    os.ReadFile (list Byte.byte) nat O
      (fun _ => inl [Byte.x68; Byte.x69])
      (fun f => inl (Z.of_nat (List.length f))) Read (fun c => c)
      (fun n => (n <=? 4096)%nat) 64
      fuel "greeting.txt"
    = Some (os.Returned [Byte.x68; Byte.x69] None).
Proof.
  intros Read.
  destruct (C10_ReadFile_EOF_is_nil (list Byte.byte) nat O
              (fun _ => inl [Byte.x68; Byte.x69])
              (fun f => inl (Z.of_nat (List.length f))) Read (fun c => c)
              (fun n => (n <=? 4096)%nat) 64
              "greeting.txt" [Byte.x68; Byte.x69] [Byte.x68; Byte.x69] O
              eq_refl eq_refl)
    as [[fuel Hfuel] _].
  - apply (os.reads_more _ _ Read _ _ _ 0 _ [Byte.x68; Byte.x69] []
             [] O); [reflexivity | reflexivity | vm_compute; lia |].
    apply (os.reads_last _ _ Read _ _ [] _ _ [] O []);
      [reflexivity | reflexivity | vm_compute; lia].
  - exists fuel. apply (Hfuel fuel (le_n fuel)). reflexivity.
Defined.

(** ** The claim about Interface Lowering *)

Section LoweringProperties.

Variable threshold : nat.

Lemma decide_method_table (inp : interface_lowering.Input) (m m' : string) :
  interface_lowering.decide_method threshold inp m'
  = interface_lowering.TableCall m ->
  m' = m /\ List.length (interface_lowering.implSet inp m) <> 1%nat.
Proof.
  unfold interface_lowering.decide_method.
  destruct (interface_lowering.implSet inp m') as [|[id f] [|entry set]] eqn:E;
    try discriminate; destruct (_ <=? _)%nat; try discriminate;
    intros [= ->]; rewrite E; cbn; split; [reflexivity|discriminate].
Qed.

(** Every rewritten call stands at the index of its call site. *)
Lemma lowerCalls_lookup (inp : interface_lowering.Input)
    (cs : list interface_lowering.CallSite)
    (ls : list interface_lowering.Lowered) :
  interface_lowering.lowerCalls threshold inp cs = inl ls ->
  Forall2 (fun c l => interface_lowering.lowerCall threshold inp c = inl l)
    cs ls.
Proof.
  revert ls. induction cs as [|c cs IH]; intros ls; cbn.
  - intros [= <-]. constructor.
  - destruct (interface_lowering.lowerCall threshold inp c) as [l|e] eqn:Ec;
      [|discriminate].
    destruct (interface_lowering.lowerCalls threshold inp cs) as [ls'|e];
      [|discriminate].
    intros [= <-]. constructor; [assumption|]. now apply IH.
Qed.

Lemma emitTables_method (inp : interface_lowering.Input)
    (ls : list interface_lowering.Lowered) (m : string)
    (t : list (nat * string)) :
  In (m, t) (interface_lowering.emitTables inp ls) ->
  In (interface_lowering.TableCall m) ls.
Proof.
  unfold interface_lowering.emitTables. rewrite in_map_iff.
  intros (m' & [= -> _] & Hin).
  rewrite <- list_elem_of_In, elem_of_remove_dups, list_elem_of_In in Hin.
  apply in_flat_map in Hin as (l & Hl & Hm).
  destruct l; cbn in Hm; try contradiction.
  destruct Hm as [->|[]]. exact Hl.
Qed.

End LoweringProperties.

(** C6, as the specification states it, fails on the edge case of
    section 4.2: the method [Name] has exactly one implementation, and the
    call site that is provably made on a nil interface value becomes a
    trap, not a direct call. *)
Lemma C6_nil_call_site_counterexample :
  let inp :=
    interface_lowering.mkInput ["Dog"]
      [interface_lowering.mkImpl "Dog" "Name" "Dog.Name"]
      [interface_lowering.mkCall "Name" false true;
       interface_lowering.mkCall "Name" true true] in
  interface_lowering.implSet inp "Name" = [(0%nat, "Dog.Name")]
  /\ interface_lowering.lower 1 inp
     = inl (interface_lowering.mkOutput
              [interface_lowering.DirectCall "Dog.Name";
               interface_lowering.Trap] []).
Proof. split; reflexivity. Qed.

(** C6 (amended): when the implementation set of an interface method holds
    exactly one implementation [f], the output of Interface Lowering has a
    direct call of [f] in the place of every call site of that method that
    is not provably made on a nil interface value, and no dispatch table
    for the method. *)
Theorem C6_single_implementation_is_called_directly
    (threshold : nat) (inp : interface_lowering.Input)
    (out : interface_lowering.Output) (method : string) (id : nat)
    (f : string) :
  interface_lowering.implSet inp method = [(id, f)] ->
  interface_lowering.lower threshold inp = inl out ->
  List.length (interface_lowering.lowered out)
  = List.length (interface_lowering.calls inp)
  /\ (forall (i : nat) (c : interface_lowering.CallSite),
        interface_lowering.calls inp !! i = Some c ->
        interface_lowering.call_method c = method ->
        interface_lowering.call_nil c = false ->
        interface_lowering.lowered out !! i
        = Some (interface_lowering.DirectCall f))
  /\ (forall t, ~ In (method, t) (interface_lowering.tables out)).
Proof.
  intros Hone. unfold interface_lowering.lower.
  destruct (interface_lowering.lowerCalls threshold inp
              (interface_lowering.calls inp)) as [ls|e] eqn:E; [|discriminate].
  intros [= <-]. cbn. apply lowerCalls_lookup in E.
  split; [symmetry; now apply Forall2_length in E|]. split.
  - intros i c Hc Hm Hnil.
    destruct (Forall2_lookup_l _ _ _ _ _ E Hc) as (l & Hl & Hlow).
    rewrite Hl. f_equal. revert Hlow. unfold interface_lowering.lowerCall.
    rewrite Hnil, Hm. unfold interface_lowering.decide_method. rewrite Hone.
    destruct (interface_lowering.call_enumerable c); congruence.
  - intros t Hin. apply emitTables_method in Hin.
    rewrite <- list_elem_of_In in Hin.
    apply list_elem_of_lookup in Hin as [i Hi].
    destruct (Forall2_lookup_r _ _ _ _ _ E Hi) as (c & _ & Hlow).
    revert Hlow. unfold interface_lowering.lowerCall.
    destruct (interface_lowering.call_nil c); [discriminate|].
    destruct (interface_lowering.call_enumerable c); [|discriminate].
    intros [= Hd]. apply decide_method_table in Hd as (_ & Hd).
    rewrite Hone in Hd. now apply Hd.
Qed.

Lemma C6_single_implementation_witness :
  let inp :=
    interface_lowering.mkInput ["Cat"; "Dog"]
      [interface_lowering.mkImpl "Cat" "Speak" "Cat.Speak";
       interface_lowering.mkImpl "Dog" "Speak" "Dog.Speak";
       interface_lowering.mkImpl "Dog" "Name" "Dog.Name"]
      [interface_lowering.mkCall "Speak" false true;
       interface_lowering.mkCall "Name" false true] in
  let out :=
    interface_lowering.mkOutput
      [interface_lowering.TableCall "Speak";
       interface_lowering.DirectCall "Dog.Name"]
      [("Speak", [(0, "Cat.Speak"); (1, "Dog.Speak")])]%nat in
  interface_lowering.lower 1 inp = inl out
  /\ interface_lowering.lowered out !! 1%nat
     = Some (interface_lowering.DirectCall "Dog.Name")
  /\ ~ In ("Name", [(1%nat, "Dog.Name")]) (interface_lowering.tables out).
Proof.
  intros inp out.
  destruct (C6_single_implementation_is_called_directly 1 inp out
              "Name" 1 "Dog.Name" eq_refl eq_refl) as (_ & Hcalls & Htables).
  split; [reflexivity|]. split.
  - apply (Hcalls 1%nat (interface_lowering.mkCall "Name" false true));
      reflexivity.
  - apply Htables.
Defined.

(** ** The claim about Dead-Code Elimination *)

Section EliminationProperties.

Variable p : dce.Program.

Lemma elem_of_successors (seen : gset string) (x : string) :
  x ∈ dce.successors p seen
  <-> exists s, In s (dce.symbols p) /\ dce.sym_name s ∈ seen
                /\ In x (dce.sym_refs s).
Proof.
  unfold dce.successors.
  rewrite elem_of_list_to_set, list_elem_of_In, in_flat_map. split.
  - intros (s & Hs & Hx). exists s. split; [assumption|].
    destruct (bool_decide_reflect (dce.sym_name s ∈ seen)); [auto|].
    contradiction.
  - intros (s & Hs & Hseen & Hx). exists s. split; [assumption|].
    now rewrite bool_decide_eq_true_2.
Qed.

Lemma successors_universe (seen : gset string) :
  dce.successors p seen ⊆ dce.universe p.
Proof.
  intros x Hx. apply elem_of_successors in Hx as (s & Hs & _ & Hx).
  unfold dce.universe. apply elem_of_union. right.
  rewrite elem_of_list_to_set, list_elem_of_In, in_flat_map. eauto.
Qed.

Lemma expand_universe (seen : gset string) :
  seen ⊆ dce.universe p -> dce.expand p seen ⊆ dce.universe p.
Proof.
  intros Hseen x. unfold dce.expand. rewrite elem_of_union.
  intros [Hx|Hx]; [now apply Hseen | now apply (successors_universe seen)].
Qed.

Lemma expand_extends (seen : gset string) : seen ⊆ dce.expand p seen.
Proof. unfold dce.expand. apply union_subseteq_l. Qed.

Lemma expandN_extends (n : nat) (seen : gset string) :
  seen ⊆ dce.expandN p n seen.
Proof.
  revert seen. induction n as [|n IH]; intros seen; cbn; [done|].
  transitivity (dce.expand p seen); [|apply IH].
  apply expand_extends.
Qed.

Lemma expandN_universe (n : nat) (seen : gset string) :
  seen ⊆ dce.universe p -> dce.expandN p n seen ⊆ dce.universe p.
Proof.
  revert seen. induction n as [|n IH]; intros seen Hseen; cbn; [done|].
  apply IH, expand_universe, Hseen.
Qed.

Lemma expandN_closed (n : nat) (seen : gset string) :
  dce.expand p seen = seen -> dce.expandN p n seen = seen.
Proof.
  intros Hfix. induction n as [|n IH]; cbn; [done|]. now rewrite Hfix.
Qed.

(** A round either changes nothing any more or adds a name. *)
Lemma expandN_closed_or_grows (n : nat) (seen : gset string) :
  dce.expand p (dce.expandN p n seen) = dce.expandN p n seen
  \/ (size seen + n <= size (dce.expandN p n seen))%nat.
Proof.
  revert seen. induction n as [|n IH]; intros seen; cbn.
  - right. lia.
  - destruct (decide (dce.expand p seen = seen)) as [Hfix|Hgrow].
    + left. rewrite Hfix. now rewrite expandN_closed.
    + destruct (IH (dce.expand p seen)) as [Hclosed|Hsize]; [now left|].
      right. assert (seen ⊂ dce.expand p seen) as Hsub.
      { split; [apply expand_extends|].
        intros Hback. apply Hgrow. apply set_eq. intros x. split.
        - apply Hback.
        - apply expand_extends. }
      apply subset_size in Hsub. lia.
Qed.

(** The computed set is closed under calls and references. *)
Lemma reachableSet_closed :
  dce.expand p (dce.reachableSet p) = dce.reachableSet p.
Proof.
  unfold dce.reachableSet.
  destruct (expandN_closed_or_grows (size (dce.universe p)) (dce.roots p))
    as [Hclosed|Hsize]; [exact Hclosed|].
  assert (Hroots : dce.roots p ⊆ dce.universe p)
    by (unfold dce.universe; apply union_subseteq_l).
  pose proof (expandN_universe (size (dce.universe p)) _ Hroots) as Hin.
  assert (Hall : dce.expandN p (size (dce.universe p)) (dce.roots p)
                 = dce.universe p).
  { apply set_subseteq_size_eq; [exact Hin|lia]. }
  rewrite Hall. apply set_eq. intros x. split.
  - apply expand_universe. done.
  - apply expand_extends.
Qed.

Lemma reachableSet_complete (r x : string) :
  r ∈ dce.roots p -> dce.reaches p r x -> x ∈ dce.reachableSet p.
Proof.
  intros Hr. induction 1 as [|b c Hreach IH (s & Hs & Hname & Hc)].
  - unfold dce.reachableSet. now apply expandN_extends.
  - rewrite <- reachableSet_closed. unfold dce.expand.
    apply elem_of_union. right. apply elem_of_successors.
    exists s. rewrite Hname. auto.
Qed.

Lemma expandN_sound (n : nat) (seen : gset string) (x : string) :
  x ∈ dce.expandN p n seen -> exists r, r ∈ seen /\ dce.reaches p r x.
Proof.
  revert seen. induction n as [|n IH]; intros seen; cbn.
  - intros Hx. exists x. split; [assumption|constructor].
  - intros Hx. apply IH in Hx as (r & Hr & Hreach).
    unfold dce.expand in Hr. apply elem_of_union in Hr as [Hr|Hr]; [eauto|].
    apply elem_of_successors in Hr as (s & Hs & Hseen & Hr).
    exists (dce.sym_name s). split; [assumption|].
    clear IH. induction Hreach as [|b c Hreach IHr Hstep].
    + apply dce.reaches_next with (b := dce.sym_name s); [constructor|].
      exists s. auto.
    + apply dce.reaches_next with (b := b); assumption.
Qed.

Lemma reachableSet_sound (x : string) :
  x ∈ dce.reachableSet p ->
  exists r, In r (dce.entry_points p ++ dce.table_entries p)%list
            /\ dce.reaches p r x.
Proof.
  intros Hx. apply expandN_sound in Hx as (r & Hr & Hreach).
  exists r. split; [|assumption].
  unfold dce.roots in Hr. now rewrite elem_of_list_to_set, list_elem_of_In in Hr.
Qed.

Lemma eliminate_keeps (s : dce.Symbol) :
  In s (dce.symbols (dce.eliminate p))
  <-> In s (dce.symbols p) /\ dce.sym_name s ∈ dce.reachableSet p.
Proof.
  unfold dce.eliminate. cbn. rewrite filter_In.
  now rewrite bool_decide_eq_true.
Qed.

End EliminationProperties.

(** C7: Dead-Code Elimination keeps every symbol of the program, function
    or global, that is transitively reachable from a declared entry point,
    and removes every symbol that is reachable from no entry point and from
    no surviving Interface Method Table entry. *)
Theorem C7_elimination_follows_reachability
    (p : dce.Program) (f : dce.Symbol) :
  In f (dce.symbols p) ->
  ((exists e, In e (dce.entry_points p) /\ dce.reaches p e (dce.sym_name f)) ->
   In f (dce.symbols (dce.eliminate p)))
  /\ ((forall r, In r (dce.entry_points p ++ dce.table_entries p)%list ->
                 ~ dce.reaches p r (dce.sym_name f)) ->
      ~ In f (dce.symbols (dce.eliminate p))).
Proof.
  intros Hf. split.
  - intros (e & He & Hreach). apply eliminate_keeps. split; [assumption|].
    apply (reachableSet_complete p e); [|assumption].
    unfold dce.roots. rewrite elem_of_list_to_set, list_elem_of_In.
    apply in_or_app. now left.
  - intros Hnone Hin. apply eliminate_keeps in Hin as [_ Hin].
    apply reachableSet_sound in Hin as (r & Hr & Hreach).
    exact (Hnone r Hr Hreach).
Qed.

Lemma C7_elimination_witness :
  let main := dce.mkSymbol "main" true ["helper"] in
  let helper := dce.mkSymbol "helper" true [] in
  let dead := dce.mkSymbol "dead" true ["helper"] in
  let p := dce.mkProgram [main; helper; dead] ["main"] [] in
  In helper (dce.symbols (dce.eliminate p))
  /\ dce.symbols (dce.eliminate p) = [main; helper].
Proof.
  intros main helper dead p.
  destruct (C7_elimination_follows_reachability p helper) as [Hkept _].
  - cbn. auto.
  - split; [|reflexivity]. apply Hkept. exists "main". split; [cbn; auto|].
    apply dce.reaches_next with (b := "main"); [constructor|].
    exists main. cbn. auto.
Defined.

(** * Further properties of the code *)

(** ** What the filter leaves in a line *)

Lemma dropComment_no_semicolon (line : string) :
  ~ In ";"%char (list_ascii_of_string (declarative.dropComment line)).
Proof.
  induction line as [|c line IH]; simpl; [tauto|].
  destruct (Ascii.eqb_spec c ";") as [->|Hc]; simpl; [tauto|].
  intros [H|H]; [congruence|contradiction].
Qed.

Lemma dropComment_without_semicolon (line : string) :
  ~ In ";"%char (list_ascii_of_string line) ->
  declarative.dropComment line = line.
Proof.
  induction line as [|c line IH]; simpl; [reflexivity|]. intros H.
  destruct (Ascii.eqb_spec c ";") as [->|Hc]; [tauto|].
  rewrite IH; [reflexivity|tauto].
Qed.

Lemma TrimRight_In (s cutset : string) (c : ascii) :
  In c (list_ascii_of_string (strings.TrimRight s cutset)) ->
  In c (list_ascii_of_string s).
Proof.
  induction s as [|a s IH]; simpl; [tauto|].
  destruct (strings.TrimRight s cutset) as [|b t] eqn:E.
  - destruct (strings.inCutset a cutset); simpl; tauto.
  - simpl. simpl in IH. tauto.
Qed.

Lemma TrimRight_idempotent (s cutset : string) :
  strings.TrimRight (strings.TrimRight s cutset) cutset
  = strings.TrimRight s cutset.
Proof.
  induction s as [|a s IH]; simpl; [reflexivity|].
  destruct (strings.TrimRight s cutset) as [|b t] eqn:E.
  - destruct (strings.inCutset a cutset) eqn:Ea; simpl; [reflexivity|].
    now rewrite Ea.
  - change (strings.TrimRight (String a (String b t)) cutset)
      with (match strings.TrimRight (String b t) cutset with
            | EmptyString =>
                if strings.inCutset a cutset then EmptyString
                else String a EmptyString
            | String x y => String a (String x y)
            end).
    now rewrite IH.
Qed.

Lemma cleanLine_no_semicolon (line : string) :
  ~ In ";"%char (list_ascii_of_string (declarative.cleanLine line)).
Proof.
  unfold declarative.cleanLine. intros H. apply TrimRight_In in H.
  now apply dropComment_no_semicolon in H.
Qed.

Lemma cleanLine_idempotent (line : string) :
  declarative.cleanLine (declarative.cleanLine line)
  = declarative.cleanLine line.
Proof.
  unfold declarative.cleanLine at 1.
  rewrite dropComment_without_semicolon by apply cleanLine_no_semicolon.
  unfold declarative.cleanLine. apply TrimRight_idempotent.
Qed.

Lemma sliceFrom_In (s : string) (n : nat) (c : ascii) :
  In c (list_ascii_of_string (strings.sliceFrom s n)) ->
  In c (list_ascii_of_string s).
Proof.
  revert s. induction n as [|n IH]; intros s; [now destruct s|].
  destruct s as [|a s]; simpl; [tauto|]. intros H. right. now apply IH.
Qed.

Lemma paramAt_In (s : string) (len : nat) (g : ascii) :
  regexp.paramAt s = Some (len, g) -> In g (list_ascii_of_string s).
Proof.
  unfold regexp.paramAt.
  destruct (regexp.stripLiteral " %" s) as [r|] eqn:E; [|discriminate].
  apply stripLiteral_Some in E. subst s.
  destruct (regexp.countDigits r =? 0)%nat; [discriminate|].
  destruct (strings.sliceFrom r (regexp.countDigits r)) as [|c rest] eqn:Er;
    [discriminate|].
  destruct (Ascii.eqb c ")" || Ascii.eqb c ","); [|discriminate].
  intros [= _ <-]. simpl. right. right.
  apply (sliceFrom_In r (regexp.countDigits r)). rewrite Er. simpl. now left.
Qed.

(** The rewriting of a [define] line only takes bytes away. *)
Lemma paramReplaceFrom_In (s : string) (skip : nat) (c : ascii) :
  In c (list_ascii_of_string (regexp.paramReplaceFrom skip s)) ->
  In c (list_ascii_of_string s).
Proof.
  revert skip. induction s as [|a s IH]; intros skip; simpl; [tauto|].
  destruct skip as [|k].
  - destruct (regexp.paramAt (String a s)) as [[len g]|] eqn:E; simpl.
    + intros [<-|H]; [apply (paramAt_In _ _ _ E)|]. right. now apply IH in H.
    + intros [<-|H]; [now left|]. right. now apply IH in H.
  - intros H. right. now apply IH in H.
Qed.

Lemma paramReplace_keeps_first (a : ascii) (s : string) :
  a <> " "%char ->
  regexp.paramReplaceAllString (String a s)
  = String a (regexp.paramReplaceFrom O s).
Proof.
  intros Ha. unfold regexp.paramReplaceAllString. cbn [regexp.paramReplaceFrom].
  unfold regexp.paramAt. cbn [regexp.stripLiteral].
  destruct (Ascii.eqb_spec " " a) as [Heq|_]; [congruence|reflexivity].
Qed.

Lemma HasPrefix_first (a b : ascii) (s p : string) :
  strings.HasPrefix (String a s) (String b p) = true -> a = b.
Proof.
  unfold strings.HasPrefix. cbn.
  destruct (Ascii.ascii_dec b a) as [->|]; [reflexivity|discriminate].
Qed.

Lemma relevantLines_In (v : Z) (lines : list string) (line : string) :
  In line (declarative.relevantLines v lines) ->
  exists l0, In l0 lines
             /\ declarative.keepLine v (declarative.cleanLine l0) = true
             /\ line = declarative.rewriteLine v (declarative.cleanLine l0).
Proof.
  unfold declarative.relevantLines. rewrite in_map_iff.
  intros (l1 & <- & H). apply filter_In in H as [H Hkeep].
  apply in_map_iff in H as (l0 & <- & H). eauto.
Qed.

Lemma relevantLines_modern (v : Z) (lines : list string) :
  (10 <= v)%Z ->
  declarative.relevantLines v lines
  = List.filter
      (fun l => negb (String.eqb l "")
                && negb (strings.HasPrefix l "source_filename = "))
      (map declarative.cleanLine lines).
Proof.
  intros Hv. unfold declarative.relevantLines.
  assert (Hlt : (v <? 10)%Z = false) by lia.
  unfold declarative.rewriteLine, declarative.keepLine. rewrite Hlt. cbn.
  rewrite map_id. apply filter_ext. intros l. now rewrite andb_true_r.
Qed.

(** X1: whatever the LLVM version, a line that [filterIrrelevantIRLines]
    keeps is not empty, holds no [;], and does not begin with
    [source_filename = ]; for an LLVM before 10 it does not begin with
    [attributes ] either. *)
Theorem X1_kept_lines_are_clean (v : Z) (lines : list string) (line : string) :
  In line (filterIrrelevantIRLines v lines) ->
  line <> EmptyString
  /\ ~ In ";"%char (list_ascii_of_string line)
  /\ strings.HasPrefix line "source_filename = " = false
  /\ ((v < 10)%Z -> strings.HasPrefix line "attributes " = false).
Proof.
  rewrite filterIrrelevantIRLines_relevantLines. intros H.
  apply relevantLines_In in H as (l0 & _ & Hkeep & ->).
  pose proof (cleanLine_no_semicolon l0) as Hsemi.
  set (l := declarative.cleanLine l0) in *.
  unfold declarative.keepLine in Hkeep.
  apply andb_true_iff in Hkeep as [Hkeep Hattr].
  apply andb_true_iff in Hkeep as [Hne Hsrc].
  apply negb_true_iff in Hne, Hsrc, Hattr.
  unfold declarative.rewriteLine.
  destruct ((v <? 10)%Z && strings.HasPrefix l "define ") eqn:Hdef.
  - apply andb_true_iff in Hdef as [_ Hdef].
    destruct l as [|a s]; [discriminate Hdef|].
    apply HasPrefix_first in Hdef. subst a.
    rewrite paramReplace_keeps_first by discriminate.
    split; [discriminate|]. split.
    + intros [H|H]; [discriminate|]. apply paramReplaceFrom_In in H.
      apply Hsemi. simpl. now right.
    + split; [|intros _];
        (match goal with
         | |- ?b = false => destruct b eqn:E; [|reflexivity]
         end; apply HasPrefix_first in E; discriminate).
  - split; [intros ->; discriminate Hne|]. split; [exact Hsemi|].
    split; [exact Hsrc|]. intros Hv.
    assert (Hlt : (v <? 10)%Z = true) by lia.
    now rewrite Hlt in Hattr.
Qed.

Lemma X1_kept_lines_witness :
  "define void @f(i32) {" <> EmptyString
  /\ ~ In ";"%char (list_ascii_of_string "define void @f(i32) {")
  /\ strings.HasPrefix "define void @f(i32) {" "source_filename = " = false
  /\ ((9 < 10)%Z ->
      strings.HasPrefix "define void @f(i32) {" "attributes " = false).
Proof.
  apply (X1_kept_lines_are_clean 9
           ["; ModuleID = 'f'"; "define void @f(i32 %0) { ; entry"]).
  vm_compute. left. reflexivity.
Defined.

(** X2: for LLVM 10 and later the filter is a normalisation: filtering
    lines that were already filtered changes nothing. *)
Theorem X2_filter_idempotent (v : Z) (lines : list string) :
  (10 <= v)%Z ->
  filterIrrelevantIRLines v (filterIrrelevantIRLines v lines)
  = filterIrrelevantIRLines v lines.
Proof.
  intros Hv. rewrite !filterIrrelevantIRLines_relevantLines.
  rewrite !relevantLines_modern by assumption.
  induction lines as [|l lines IH]; [reflexivity|]. cbn [map List.filter].
  destruct (negb (String.eqb (declarative.cleanLine l) "")
            && negb (strings.HasPrefix (declarative.cleanLine l)
                       "source_filename = ")) eqn:E.
  - cbn [map List.filter]. rewrite cleanLine_idempotent, E. now rewrite IH.
  - exact IH.
Qed.

Lemma X2_filter_idempotent_witness :
  filterIrrelevantIRLines 11
    (filterIrrelevantIRLines 11 ["ret void ; done"; ""; "source_filename = x"])
  = filterIrrelevantIRLines 11 ["ret void ; done"; ""; "source_filename = x"].
Proof. apply X2_filter_idempotent. lia. Defined.

(** ** Texts put together *)

Lemma Split_append (a b : string) (sep : ascii) :
  strings.Split (a ++ String sep b) sep
  = (strings.Split a sep ++ strings.Split b sep)%list.
Proof.
  induction a as [|c a IH].
  - change (EmptyString ++ String sep b) with (String sep b).
    cbn [strings.Split app]. now rewrite Ascii.eqb_refl.
  - rewrite append_cons. cbn [strings.Split]. rewrite IH.
    destruct (Ascii.eqb c sep); [reflexivity|].
    destruct (strings.Split a sep) as [|piece pieces] eqn:E; [|reflexivity].
    now apply Split_not_nil in E.
Qed.

Lemma relevantLines_append (v : Z) (l1 l2 : list string) :
  declarative.relevantLines v (l1 ++ l2)
  = (declarative.relevantLines v l1 ++ declarative.relevantLines v l2)%list.
Proof.
  unfold declarative.relevantLines.
  now rewrite List.map_app, List.filter_app, List.map_app.
Qed.

Lemma filter_Split_append (v : Z) (a b : string) :
  filterIrrelevantIRLines v (strings.Split (a ++ String LF b) LF)
  = (filterIrrelevantIRLines v (strings.Split a LF)
     ++ filterIrrelevantIRLines v (strings.Split b LF))%list.
Proof.
  rewrite !filterIrrelevantIRLines_relevantLines, Split_append.
  apply relevantLines_append.
Qed.

(** X3: the comparison goes through the joining of texts: when [a1]
    compares equal to [a2] and [b1] to [b2], the text [a1] followed by a
    line feed and [b1] compares equal to [a2] followed by a line feed and
    [b2]. *)
Theorem X3_fuzzyEqualIR_of_joined_texts (v : Z) (a1 a2 b1 b2 : string) :
  fuzzyEqualIR v a1 a2 = true ->
  fuzzyEqualIR v b1 b2 = true ->
  fuzzyEqualIR v (a1 ++ String LF b1) (a2 ++ String LF b2) = true.
Proof.
  rewrite !fuzzyEqualIR_linesMatch, !filter_Split_append.
  apply Forall2_app.
Qed.

Lemma X3_joined_texts_witness :
  fuzzyEqualIR 11 ("ret void ; a" ++ String LF "br label %x, align 4")
    ("ret void" ++ String LF "br label %x") = true.
Proof. apply X3_fuzzyEqualIR_of_joined_texts; reflexivity. Defined.

(** X4: text of which the filter keeps no line (comments, blank lines,
    [source_filename] lines) can stand between any two lines of either
    side without a change of the verdict. *)
Theorem X4_ignored_text_can_be_inserted (v : Z) (a junk b s : string) :
  filterIrrelevantIRLines v (strings.Split junk LF) = [] ->
  fuzzyEqualIR v (a ++ String LF (junk ++ String LF b)) s
  = fuzzyEqualIR v (a ++ String LF b) s
  /\ fuzzyEqualIR v s (a ++ String LF (junk ++ String LF b))
     = fuzzyEqualIR v s (a ++ String LF b).
Proof.
  intros Hjunk.
  assert (Hsame :
    filterIrrelevantIRLines v
      (strings.Split (a ++ String LF (junk ++ String LF b)) LF)
    = filterIrrelevantIRLines v (strings.Split (a ++ String LF b) LF)).
  { now rewrite !filter_Split_append, Hjunk. }
  split; apply Bool.eq_true_iff_eq; rewrite !fuzzyEqualIR_linesMatch;
    now rewrite Hsame.
Qed.

Lemma X4_ignored_text_witness :
  fuzzyEqualIR 11
    ("ret void" ++ String LF
       (("; a comment" ++ String LF (" " ++ String LF "source_filename = x"))
          ++ String LF "unreachable"))
    ("ret void" ++ String LF "unreachable")
  = fuzzyEqualIR 11 ("ret void" ++ String LF "unreachable")
      ("ret void" ++ String LF "unreachable").
Proof.
  apply (X4_ignored_text_can_be_inserted 11 "ret void"
           ("; a comment" ++ String LF (" " ++ String LF "source_filename = x"))
           "unreachable").
  reflexivity.
Defined.

(** ** Windows line ends *)

Lemma cleanLine_cons (c : ascii) (p q : string) :
  declarative.cleanLine p = declarative.cleanLine q ->
  declarative.cleanLine (String c p) = declarative.cleanLine (String c q).
Proof.
  unfold declarative.cleanLine. cbn [declarative.dropComment].
  destruct (Ascii.eqb c ";"); [reflexivity|]. cbn [strings.TrimRight].
  now intros ->.
Qed.

Lemma Split_toCRLF (s : string) :
  map declarative.cleanLine (strings.Split (variants.toCRLF s) LF)
  = map declarative.cleanLine (strings.Split s LF).
Proof.
  induction s as [|c s IH]; [reflexivity|].
  cbn [variants.toCRLF strings.Split].
  destruct (Ascii.eqb c LF) eqn:Ec.
  - cbn [strings.Split]. change (Ascii.eqb CR LF) with false.
    rewrite Ascii.eqb_refl. cbn [map]. now rewrite IH.
  - cbn [strings.Split]. rewrite Ec.
    destruct (strings.Split (variants.toCRLF s) LF) as [|p ps] eqn:E1;
      [now apply Split_not_nil in E1|].
    destruct (strings.Split s LF) as [|q qs] eqn:E2;
      [now apply Split_not_nil in E2|].
    cbn [map] in *. injection IH as Hhead Htail.
    now rewrite (cleanLine_cons c p q Hhead), Htail.
Qed.

Lemma filter_toCRLF (v : Z) (s : string) :
  filterIrrelevantIRLines v (strings.Split (variants.toCRLF s) LF)
  = filterIrrelevantIRLines v (strings.Split s LF).
Proof.
  rewrite !filterIrrelevantIRLines_relevantLines.
  unfold declarative.relevantLines. now rewrite Split_toCRLF.
Qed.

(** X5: the comparison does not see Windows line ends: putting a carriage
    return before every line feed of either text leaves the verdict as it
    is. *)
Theorem X5_fuzzyEqualIR_ignores_carriage_returns :
  forall (v : Z) (s1 s2 : string),
    fuzzyEqualIR v (variants.toCRLF s1) s2 = fuzzyEqualIR v s1 s2
    /\ fuzzyEqualIR v s1 (variants.toCRLF s2) = fuzzyEqualIR v s1 s2
    /\ fuzzyEqualIR v (variants.toCRLF s1) s1 = true.
Proof.
  intros v s1 s2. repeat split.
  - apply Bool.eq_true_iff_eq. rewrite !fuzzyEqualIR_linesMatch.
    now rewrite filter_toCRLF.
  - apply Bool.eq_true_iff_eq. rewrite !fuzzyEqualIR_linesMatch.
    now rewrite filter_toCRLF.
  - apply fuzzyEqualIR_linesMatch. rewrite filter_toCRLF.
    apply Forall2_linesMatch_refl.
Qed.

(** ** The comparison is not an equivalence *)

(** X6: [fuzzyEqualIR] is not transitive: a text whose one relevant line
    lacks the annotation compares equal to the same line with [, align N]
    for any [N], while two such lines with different digits do not compare
    equal. *)
Theorem X6_fuzzyEqualIR_not_transitive
    (v : Z) (s1 s2 s3 body d1 d3 : string) :
  filterIrrelevantIRLines v (strings.Split s1 LF) = [body ++ ", align " ++ d1] ->
  filterIrrelevantIRLines v (strings.Split s2 LF) = [body] ->
  filterIrrelevantIRLines v (strings.Split s3 LF) = [body ++ ", align " ++ d3] ->
  ~ declarative.endsWithAlign body ->
  d1 <> EmptyString -> regexp.allDigits d1 = true ->
  d3 <> EmptyString -> regexp.allDigits d3 = true ->
  d1 <> d3 ->
  fuzzyEqualIR v s1 s2 = true
  /\ fuzzyEqualIR v s2 s3 = true
  /\ fuzzyEqualIR v s1 s3 = false.
Proof.
  intros H1 H2 H3 Hbody Hn1 Hd1 Hn3 Hd3 Hne.
  assert (Hplain : regexp.alignMatchString body = false).
  { destruct (regexp.alignMatchString body) eqn:E; [|reflexivity].
    now apply alignMatchString_iff in E. }
  repeat split.
  - apply fuzzyEqualIR_linesMatch. rewrite H1, H2.
    constructor; [|constructor]. apply linesMatch_alignRule.
    right. left. split; [assumption|]. eauto.
  - apply fuzzyEqualIR_linesMatch. rewrite H2, H3.
    constructor; [|constructor]. apply linesMatch_alignRule.
    right. right. split; [assumption|]. eauto.
  - apply Bool.not_true_is_false. intros H.
    apply fuzzyEqualIR_linesMatch in H. rewrite H1, H3 in H.
    inversion H as [|? ? ? ? Hline _]; subst.
    rewrite linesMatch_two_sided in Hline
      by (rewrite !alignFind_annotated_match; auto).
    apply String.eqb_eq in Hline.
    apply String.app_inj in Hline. apply (String.app_inj ", align ") in Hline.
    contradiction.
Qed.

Lemma X6_not_transitive_witness :
  fuzzyEqualIR 11 "ret i32 %a, align 4" "ret i32 %a" = true
  /\ fuzzyEqualIR 11 "ret i32 %a" "ret i32 %a, align 8" = true
  /\ fuzzyEqualIR 11 "ret i32 %a, align 4" "ret i32 %a, align 8" = false.
Proof.
  apply (X6_fuzzyEqualIR_not_transitive 11 "ret i32 %a, align 4" "ret i32 %a"
           "ret i32 %a, align 8" "ret i32 %a" "4" "8");
    try reflexivity; try discriminate.
  intros H. apply alignMatchString_iff in H. discriminate H.
Defined.

(** ** [alignRegexp] *)

(** X7: [alignRegexp] matches a line exactly when the line is some text
    followed by [, align ] and one or more decimal digits up to its end;
    replacing the match by the empty string then gives that text back, and
    a line that does not match is left as it is. *)
Theorem X7_alignRegexp_matches_trailing_annotation (line : string) :
  (regexp.alignMatchString line = true <-> declarative.endsWithAlign line)
  /\ (forall body digits : string,
        line = body ++ ", align " ++ digits ->
        digits <> EmptyString -> regexp.allDigits digits = true ->
        regexp.alignReplaceAllString line "" = body)
  /\ (regexp.alignMatchString line = false ->
      regexp.alignReplaceAllString line "" = line).
Proof.
  split; [apply alignMatchString_iff|]. split.
  - intros body digits -> Hne Hd. now apply alignReplace_annotated.
  - apply alignReplace_unannotated.
Qed.

Lemma X7_alignRegexp_witness :
  regexp.alignReplaceAllString "%x = load i8, i8* %p, align 16" ""
  = "%x = load i8, i8* %p"
  /\ regexp.alignReplaceAllString "ret void" "" = "ret void".
Proof.
  split.
  - destruct (X7_alignRegexp_matches_trailing_annotation
                "%x = load i8, i8* %p, align 16") as (_ & Hstrip & _).
    apply (Hstrip "%x = load i8, i8* %p" "16");
      [reflexivity | discriminate | reflexivity].
  - destruct (X7_alignRegexp_matches_trailing_annotation "ret void")
      as (_ & _ & Hkeep).
    apply Hkeep. reflexivity.
Defined.

(** ** More about [testTransform] *)

Lemma fuzzyEqualIR_same (v : Z) (s : string) : fuzzyEqualIR v s s = true.
Proof. apply fuzzyEqualIR_linesMatch, Forall2_linesMatch_refl. Qed.

Lemma fixture_paths_differ (name : string) : name ++ ".ll" <> name ++ ".out.ll".
Proof. intros H. apply String.app_inj in H. discriminate H. Qed.

Lemma testTransform_accepted_update
    (Module_ : Type) (ParseIR : string -> option Module_)
    (ModuleString : Module_ -> string) (llvmVersion : Z)
    (writable : string -> bool)
    (fs : gmap string string) (name : string)
    (transform : Module_ -> Module_) (buf : string) (m : Module_) :
  fs !! (name ++ ".ll") = Some buf ->
  ParseIR buf = Some m ->
  writable (name ++ ".out.ll") = true ->
  harness.testTransform Module_ ParseIR ModuleString llvmVersion writable
    true fs name transform
  = let actual :=
      strings.sliceFrom (ModuleString (transform m))
        (Z.to_nat
           (strings.Index (ModuleString (transform m))
              (String LF "target datalayout = ") + 1)) in
    harness.mkRun (<[name ++ ".out.ll" := actual]> fs)
      [harness.OpRead (name ++ ".ll"); harness.OpStat (name ++ ".ll");
       harness.OpWrite (name ++ ".out.ll") actual]
      false [] true.
Proof.
  intros Hbuf Hm Hw. unfold harness.testTransform.
  now rewrite Hbuf, Hm, Hw.
Qed.

(** X8: regenerating the expected fixture makes the test pass, provided
    the second run prints the same text as the first: after a run with the
    update flag whose write is accepted, a run without the flag on the
    files it leaves, whose parser, transform and printer produce the text
    that the first run printed, succeeds and changes nothing.  The second
    run has its own parser, transform and printer: nothing makes two runs
    of a Go transform print the same text, so that is a hypothesis. *)
Theorem X8_update_then_compare_passes
    (Module_ : Type) (ParseIR ParseIR' : string -> option Module_)
    (ModuleString ModuleString' : Module_ -> string) (llvmVersion : Z)
    (writable : string -> bool)
    (fs : gmap string string) (name : string)
    (transform transform' : Module_ -> Module_) (buf : string)
    (m m' : Module_) :
  fs !! (name ++ ".ll") = Some buf ->
  ParseIR buf = Some m ->
  ParseIR' buf = Some m' ->
  writable (name ++ ".out.ll") = true ->
  ModuleString' (transform' m') = ModuleString (transform m) ->
  let updated := harness.testTransform Module_ ParseIR ModuleString
                   llvmVersion writable true fs name transform in
  let checked := harness.testTransform Module_ ParseIR' ModuleString'
                   llvmVersion writable false (harness.files updated) name
                   transform' in
  harness.failed updated = false
  /\ harness.failed checked = false
  /\ harness.completed checked = true
  /\ harness.log checked = []
  /\ harness.files checked = harness.files updated.
Proof.
  intros Hbuf Hm Hm' Hw Hsame updated checked. subst checked updated.
  rewrite (testTransform_accepted_update _ _ _ _ _ _ _ _ _ _ Hbuf Hm Hw).
  cbn [harness.files harness.failed].
  split; [reflexivity|]. unfold harness.testTransform.
  rewrite lookup_insert_ne by (apply not_eq_sym, fixture_paths_differ).
  rewrite Hbuf, Hm', lookup_insert_eq, Hsame, fuzzyEqualIR_same. cbn. auto.
Qed.

Lemma X8_update_then_compare_witness :
  let fs : gmap string string :=
    <["t.ll" := "ret void"]> (<["t.out.ll" := "ret i32 0"]> ∅) in
  harness.failed
    (harness.testTransform string Some id 11 (fun _ => true) false
       (harness.files
          (harness.testTransform string Some id 11 (fun _ => true) true
             fs "t" id))
       "t" id)
  = false.
Proof.
  intros fs.
  destruct (X8_update_then_compare_passes string Some Some id id 11
              (fun _ => true) fs "t" id id "ret void" "ret void" "ret void"
              eq_refl eq_refl eq_refl eq_refl eq_refl)
    as (_ & Hchecked & _).
  exact Hchecked.
Defined.

(** X9: a run without the update flag never writes and leaves the files as
    they are; and a run whose input fixture is missing or does not parse
    fails at once, with or without the flag, without writing anything. *)
Theorem X9_no_write_without_update_or_input
    (Module_ : Type) (ParseIR : string -> option Module_)
    (ModuleString : Module_ -> string) (llvmVersion : Z)
    (writable : string -> bool) (update : bool)
    (fs : gmap string string) (name : string)
    (transform : Module_ -> Module_) :
  let r := harness.testTransform Module_ ParseIR ModuleString llvmVersion
             writable update fs name transform in
  (update = false ->
   harness.files r = fs
   /\ forall path data, ~ In (harness.OpWrite path data) (harness.trace r))
  /\ (fs !! (name ++ ".ll") = None
      \/ (exists buf, fs !! (name ++ ".ll") = Some buf /\ ParseIR buf = None) ->
      harness.failed r = true
      /\ harness.completed r = false
      /\ harness.files r = fs
      /\ forall path data, ~ In (harness.OpWrite path data) (harness.trace r)).
Proof.
  intros r. subst r. unfold harness.testTransform. split.
  - intros ->.
    destruct (fs !! (name ++ ".ll")) as [buf|];
      [destruct (ParseIR buf) as [m|];
       [destruct (fs !! (name ++ ".out.ll")) as [out|];
        [destruct (negb _)|]|]|];
      cbn; (split; [reflexivity|]); intros path data H;
      repeat (destruct H as [H|H]; [discriminate H|]); exact H.
  - intros [Hnone|(buf & Hbuf & Hparse)].
    + rewrite Hnone. cbn. repeat split.
      intros path data H.
      repeat (destruct H as [H|H]; [discriminate H|]); exact H.
    + rewrite Hbuf, Hparse. cbn. repeat split.
      intros path data H.
      repeat (destruct H as [H|H]; [discriminate H|]); exact H.
Qed.

Lemma X9_no_write_witness :
  let fs : gmap string string := <["t.out.ll" := "ret void"]> ∅ in
  let r := harness.testTransform string Some id 11 (fun _ => true) true
             fs "t" id in
  harness.failed r = true /\ harness.completed r = false
  /\ harness.files r = fs.
Proof.
  intros fs r.
  destruct (X9_no_write_without_update_or_input string Some id 11
              (fun _ => true) true fs "t" id) as [_ Hmissing].
  destruct (Hmissing (or_introl eq_refl)) as (Hfailed & Hstopped & Hfiles & _).
  auto.
Defined.

(** ** Where the compared text starts *)

Lemma prefix_iff (p s : string) :
  String.prefix p s = true <-> exists r, s = p ++ r.
Proof.
  revert s. induction p as [|a p IH]; intros s.
  - destruct s; simpl; split; eauto.
  - destruct s as [|b s]; simpl.
    + split; [discriminate|]. intros [r H]. discriminate H.
    + destruct (Ascii.ascii_dec a b) as [->|Hab].
      * rewrite IH. split; intros [r H]; exists r.
        -- now rewrite append_cons, H.
        -- rewrite append_cons in H. now injection H.
      * split; [discriminate|]. intros [r H].
        rewrite append_cons in H. injection H as H _. congruence.
Qed.

Lemma Index_cons (c : ascii) (s sub : string) :
  strings.Index (String c s) sub
  = if String.prefix sub (String c s) then 0%Z
    else if (strings.Index s sub <? 0)%Z then (-1)%Z
         else (strings.Index s sub + 1)%Z.
Proof. reflexivity. Qed.

Lemma Index_nil (sub : string) :
  strings.Index "" sub = if String.prefix sub "" then 0%Z else (-1)%Z.
Proof. reflexivity. Qed.

Lemma Index_range (s sub : string) :
  strings.Index s sub = (-1)%Z \/ (0 <= strings.Index s sub)%Z.
Proof.
  induction s as [|c s IH].
  - rewrite Index_nil. destruct (String.prefix sub ""); [right; lia|now left].
  - rewrite Index_cons. destruct (String.prefix sub (String c s)); [right; lia|].
    destruct (Z.ltb_spec (strings.Index s sub) 0); [now left|right; lia].
Qed.

(** A result that is not negative is the offset of the first occurrence. *)
Lemma Index_found (s sub : string) :
  (0 <= strings.Index s sub)%Z ->
  exists pre post,
    s = pre ++ sub ++ post
    /\ strings.Index s sub = Z.of_nat (String.length pre)
    /\ forall pre2 post2,
         s = pre2 ++ sub ++ post2 ->
         (String.length pre <= String.length pre2)%nat.
Proof.
  induction s as [|c s IH].
  - rewrite Index_nil. destruct (String.prefix sub "") eqn:E; [|lia]. intros _.
    apply prefix_iff in E as [post E]. exists EmptyString, post.
    split; [exact E|]. split; [reflexivity|]. intros; cbn; lia.
  - rewrite Index_cons.
    destruct (String.prefix sub (String c s)) eqn:E.
    + intros _. apply prefix_iff in E as [post E]. exists EmptyString, post.
      split; [exact E|]. split; [reflexivity|]. intros; cbn; lia.
    + destruct (Z.ltb_spec (strings.Index s sub) 0) as [Hneg|Hpos]; [lia|].
      intros _. destruct (IH Hpos) as (pre & post & Hs & Hi & Hmin).
      exists (String c pre), post. split; [now rewrite append_cons, <- Hs|].
      split; [rewrite Hi; cbn [String.length]; lia|].
      intros [|c2 pre2] post2 H2.
      * assert (String.prefix sub (String c s) = true) as Hp
          by (apply prefix_iff; eauto).
        congruence.
      * rewrite append_cons in H2. injection H2 as _ H2.
        cbn [String.length]. apply Hmin in H2. lia.
Qed.

(** A negative result means that there is no occurrence. *)
Lemma Index_absent (s sub : string) :
  (strings.Index s sub < 0)%Z ->
  forall pre post, s <> pre ++ sub ++ post.
Proof.
  induction s as [|c s IH]; intros Hneg pre post Hs.
  - destruct pre; [|discriminate Hs]. rewrite Index_nil in Hneg.
    assert (String.prefix sub "" = true) as Hp by (apply prefix_iff; eauto).
    rewrite Hp in Hneg. lia.
  - rewrite Index_cons in Hneg.
    destruct (String.prefix sub (String c s)) eqn:E; [lia|].
    destruct (Z.ltb_spec (strings.Index s sub) 0) as [Hneg'|Hpos]; [|lia].
    destruct pre as [|c2 pre].
    + assert (String.prefix sub (String c s) = true) as Hp
        by (apply prefix_iff; eauto).
      congruence.
    + rewrite append_cons in Hs. injection Hs as _ Hs.
      exact (IH Hneg' pre post Hs).
Qed.

Lemma sliceFrom_after (pre rest : string) (c : ascii) :
  strings.sliceFrom (pre ++ String c rest) (S (String.length pre)) = rest.
Proof.
  induction pre as [|a pre IH].
  - change (EmptyString ++ String c rest) with (String c rest).
    cbn [String.length strings.sliceFrom]. now destruct rest.
  - rewrite append_cons. cbn [String.length strings.sliceFrom]. exact IH.
Qed.

(** The text kept of the printed module. *)
Lemma datalayout_slice (text : string) :
  let actual :=
    strings.sliceFrom text
      (Z.to_nat (strings.Index text (String LF "target datalayout = ") + 1)) in
  ((forall pre post,
       text <> pre ++ String LF ("target datalayout = " ++ post)) ->
   actual = text)
  /\ (forall pre post,
        text = pre ++ String LF ("target datalayout = " ++ post) ->
        exists pre0 post0,
          text = pre0 ++ String LF actual
          /\ actual = "target datalayout = " ++ post0
          /\ (String.length pre0 <= String.length pre)%nat).
Proof.
  intros actual. subst actual.
  destruct (Index_range text (String LF "target datalayout = "))
    as [Hnone|Hsome].
  - rewrite Hnone. cbn [Z.add Z.to_nat strings.sliceFrom]. split.
    + intros _. now destruct text.
    + intros pre post H. exfalso.
      apply (Index_absent text (String LF "target datalayout = ")
               ltac:(lia) pre post).
      now rewrite append_cons.
  - destruct (Index_found _ _ Hsome) as (pre0 & post0 & Hs & Hi & Hmin).
    rewrite append_cons in Hs. rewrite Hi.
    replace (Z.to_nat (Z.of_nat (String.length pre0) + 1))
      with (S (String.length pre0)) by lia.
    assert (Hcut : strings.sliceFrom text (S (String.length pre0))
                   = "target datalayout = " ++ post0).
    { rewrite Hs at 1. apply sliceFrom_after. }
    rewrite Hcut. split.
    + intros Habsent. exfalso. exact (Habsent pre0 post0 Hs).
    + intros pre post H. exists pre0, post0. split; [exact Hs|].
      split; [reflexivity|]. apply (Hmin pre post). now rewrite append_cons.
Qed.

(** X10: what [testTransform] writes in update mode is the printed module
    cut at the first [target datalayout = ] that follows a line feed:
    everything up to and including that line feed is left out, and what is
    written starts with [target datalayout = ].  A module printed with no
    line feed followed by [target datalayout = ] is written whole; a
    [target datalayout = ] at the very start of the text follows no line
    feed and is not where the text is cut. *)
Theorem X10_written_text_starts_at_datalayout
    (Module_ : Type) (ParseIR : string -> option Module_)
    (ModuleString : Module_ -> string) (llvmVersion : Z)
    (writable : string -> bool)
    (fs : gmap string string) (name : string)
    (transform : Module_ -> Module_) (buf : string) (m : Module_) :
  fs !! (name ++ ".ll") = Some buf ->
  ParseIR buf = Some m ->
  writable (name ++ ".out.ll") = true ->
  let text := ModuleString (transform m) in
  exists actual,
    harness.files
      (harness.testTransform Module_ ParseIR ModuleString llvmVersion
         writable true fs name transform) !! (name ++ ".out.ll")
    = Some actual
    /\ ((forall pre post,
           text <> pre ++ String LF ("target datalayout = " ++ post)) ->
        actual = text)
    /\ (forall pre post,
          text = pre ++ String LF ("target datalayout = " ++ post) ->
          exists pre0 post0,
            text = pre0 ++ String LF actual
            /\ actual = "target datalayout = " ++ post0
            /\ (String.length pre0 <= String.length pre)%nat).
Proof.
  intros Hbuf Hm Hw text.
  rewrite (testTransform_accepted_update _ _ _ _ _ _ _ _ _ _ Hbuf Hm Hw).
  cbn [harness.files]. eexists. split; [apply lookup_insert_eq|].
  apply datalayout_slice.
Qed.

Lemma X10_written_text_witness :
  let fs : gmap string string :=
    <["t.ll" := "; ModuleID = 't'" ++ String LF
                  ("target datalayout = e" ++ String LF "ret void")]> ∅ in
  exists actual,
    harness.files
      (harness.testTransform string Some id 11 (fun _ => true) true fs "t" id)
      !! "t.out.ll"
    = Some actual
    /\ actual = "target datalayout = e" ++ String LF "ret void".
Proof.
  intros fs.
  destruct (X10_written_text_starts_at_datalayout string Some id 11
              (fun _ => true) fs "t" id
              ("; ModuleID = 't'" ++ String LF
                 ("target datalayout = e" ++ String LF "ret void"))
              ("; ModuleID = 't'" ++ String LF
                 ("target datalayout = e" ++ String LF "ret void"))
              eq_refl eq_refl eq_refl)
    as (actual & Hfile & _ & _).
  exists actual. split; [exact Hfile|].
  vm_compute in Hfile. now injection Hfile as <-.
Defined.

(** ** [os.ReadFile] on a file that reads without error *)

Section ReadFileContents.

Variable File : Type.
Variable error : Type.
Context `{EqDecision error}.
Variable EOF : error.
Variable Open : string -> File + error.
Variable Stat : File -> Z + error.
Variable Read : File -> nat -> list Byte.byte * option error * File.
Variable appendSlack : nat -> nat.
Variable allocates : nat -> bool.
Variable intBits : Z.
Variable contents : File -> list Byte.byte.

(** The buffer handed to [Read] is never empty. *)
Lemma capAfterGrow_room (len cap : nat) :
  (len <= cap)%nat ->
  (0 < os.capAfterGrow appendSlack len cap - len)%nat
  /\ (len <= os.capAfterGrow appendSlack len cap)%nat.
Proof.
  intros Hle. unfold os.capAfterGrow.
  destruct (Nat.leb_spec cap len); lia.
Qed.

Lemma readLoop_contents (bound fuel : nat) (f : File)
    (data : list Byte.byte) (cap : nat) :
  variants.deliversContents File error EOF Read contents ->
  (forall c, (c <= bound)%nat -> allocates (S c + appendSlack c) = true) ->
  (List.length data + List.length (contents f) <= bound)%nat ->
  (List.length data <= cap)%nat ->
  (List.length (contents f) < fuel)%nat ->
  os.readLoop File error EOF Read appendSlack allocates fuel f data cap
  = Some (os.Returned (data ++ contents f)%list None).
Proof.
  intros Hread Halloc. revert f data cap.
  induction fuel as [|fuel IH]; intros f data cap Hbound Hcap Hfuel; [lia|].
  cbn [os.readLoop].
  assert (Hgrow : os.growPanics appendSlack allocates (List.length data) cap
                  = false).
  { unfold os.growPanics. destruct (Nat.leb_spec cap (List.length data));
      [|reflexivity].
    rewrite Halloc by lia. reflexivity. }
  rewrite Hgrow.
  destruct (capAfterGrow_room (List.length data) cap Hcap) as [Hroom Hle].
  set (cap' := os.capAfterGrow appendSlack (List.length data) cap) in *.
  destruct (Read f (cap' - List.length data)) as [[chunk err] f'] eqn:ERead.
  destruct (Hread _ _ _ _ _ ERead) as (Hsplit & Hfit & Herr & Hprogress).
  destruct (Nat.ltb_spec (cap' - List.length data) (List.length chunk));
    [lia|].
  destruct Herr as [->|[-> Hend]].
  - destruct (Hprogress Hroom) as [Hchunk|Hbad]; [|discriminate Hbad].
    rewrite Hsplit, length_app in Hbound, Hfuel. rewrite IH.
    + now rewrite Hsplit, app_assoc.
    + rewrite length_app. lia.
    + rewrite length_app. lia.
    + destruct chunk; [contradiction|]. cbn [List.length] in Hfuel. lia.
  - rewrite Hsplit, Hend, app_nil_r.
    destruct (decide (EOF = EOF)); [reflexivity|contradiction].
Qed.

(** X11: when the file opens, the buffers can be allocated (the first one,
    and a grown one for every length up to that of the contents), and
    [Read] keeps the contract of a reader without read errors, [ReadFile]
    returns exactly what the file holds, with a nil error, after at most
    one call of [Read] per byte and one more. *)
Theorem X11_ReadFile_returns_the_contents (name : string) (f : File)
    (fuel : nat) :
  Open name = inl f ->
  allocates (Z.to_nat (os.initialSize File error Stat intBits f)) = true ->
  (forall c, (c <= List.length (contents f))%nat ->
             allocates (S c + appendSlack c) = true) ->
  variants.deliversContents File error EOF Read contents ->
  (List.length (contents f) < fuel)%nat ->
  os.ReadFile File error EOF Open Stat Read appendSlack allocates intBits
    fuel name
  = Some (os.Returned (contents f) None).
Proof.
  intros HOpen Hmake Hgrow Hread Hfuel. unfold os.ReadFile.
  rewrite HOpen. cbv zeta. rewrite Hmake.
  rewrite (readLoop_contents (List.length (contents f)))
    by (assumption || cbn; lia).
  reflexivity.
Qed.

End ReadFileContents.

Lemma memRead_delivers (eof : nat) :
  variants.deliversContents (list Byte.byte) nat eof (variants.memRead eof)
    (fun f => f).
Proof.
  intros f n chunk err f'. unfold variants.memRead. intros [= <- <- <-].
  split; [symmetry; apply firstn_skipn|].
  split; [apply firstn_le_length|]. split.
  - destruct f; [right|left]; auto using skipn_nil.
  - intros Hn. destruct f as [|b f]; [now right|left].
    destruct n; [lia|discriminate].
Qed.

Lemma X11_ReadFile_contents_witness :
  os.ReadFile (list Byte.byte) nat O
    (fun _ => inl [Byte.x68; Byte.x69; Byte.x0a])
    (fun _ => inr 1%nat) (variants.memRead O) (fun c => c)
    (fun n => (n <=? 4096)%nat) 32
    4 "greeting.txt"
  = Some (os.Returned [Byte.x68; Byte.x69; Byte.x0a] None).
Proof.
  apply (X11_ReadFile_returns_the_contents (list Byte.byte) nat O
           (fun _ => inl [Byte.x68; Byte.x69; Byte.x0a])
           (fun _ => inr 1%nat) (variants.memRead O) (fun c => c)
           (fun n => (n <=? 4096)%nat) 32
           (fun f => f));
    [reflexivity | reflexivity
     | intros c Hc; cbn [List.length] in Hc; apply Nat.leb_le; lia
     | apply memRead_delivers | cbn; lia].
Defined.

(** ** [os.WriteFile] *)

(** X12: [WriteFile] returns nil exactly when opening, writing and closing
    all succeed; an error of [Write] is returned whatever [Close] answers;
    the file is closed whenever it was opened, also after a failed write;
    and when [OpenFile] fails its error is returned and nothing else is
    called. *)
Theorem X12_WriteFile_errors
    (File error : Type) (O_WRONLY O_CREATE O_TRUNC : Z)
    (OpenFile : string -> Z -> Z -> File + error)
    (Write : File -> list Byte.byte -> nat * option error * File)
    (Close : File -> option error)
    (name : string) (data : list Byte.byte) (perm : Z) :
  let flag := Z.lor (Z.lor O_WRONLY O_CREATE) O_TRUNC in
  let result := os_write.WriteFile File error O_WRONLY O_CREATE O_TRUNC
                  OpenFile Write Close name data perm in
  (fst result = None
   <-> exists f n f',
         OpenFile name flag perm = inl f
         /\ Write f data = (n, None, f') /\ Close f' = None)
  /\ (forall f n e f',
        OpenFile name flag perm = inl f ->
        Write f data = (n, Some e, f') ->
        fst result = Some e)
  /\ (forall f n f' e1,
        OpenFile name flag perm = inl f ->
        Write f data = (n, None, f') ->
        Close f' = Some e1 ->
        fst result = Some e1)
  /\ (forall f,
        OpenFile name flag perm = inl f ->
        snd result
        = [os_write.CallOpenFile name flag perm; os_write.CallWrite data;
           os_write.CallClose])
  /\ (forall e,
        OpenFile name flag perm = inr e ->
        result = (Some e, [os_write.CallOpenFile name flag perm])).
Proof.
  intros flag result. subst result. unfold os_write.WriteFile. fold flag.
  destruct (OpenFile name flag perm) as [f|e0] eqn:EOpen.
  - destruct (Write f data) as [[n err] f'] eqn:EWrite.
    destruct (Close f') as [e1|] eqn:EClose; destruct err as [e|]; cbn;
      repeat split; try discriminate;
      try (intros (f0 & n0 & f0' & HO & HW & HC));
      intros; simplify_eq; first [congruence | eauto 10].
  - cbn. repeat split; try discriminate;
      try (intros (f0 & n0 & f0' & HO & HW & HC));
      intros; simplify_eq; eauto.
Qed.

Lemma X12_WriteFile_witness :
  fst (os_write.WriteFile unit nat 1 64 512 (fun _ _ _ => inl tt)
         (fun f _ => (O, Some 5%nat, f)) (fun _ => Some 7%nat)
         "out.txt" [Byte.x68] 438)
  = Some 5%nat.
Proof.
  destruct (X12_WriteFile_errors unit nat 1 64 512 (fun _ _ _ => inl tt)
              (fun f _ => (O, Some 5%nat, f)) (fun _ => Some 7%nat)
              "out.txt" [Byte.x68] 438) as (_ & Hwrite & _).
  apply (Hwrite tt O 5%nat tt); reflexivity.
Defined.

(** ** The first buffer of [os.ReadFile] *)

Section InitialSize.

Variable File : Type.
Variable error : Type.
Context `{EqDecision error}.
Variable EOF : error.
Variable Open : string -> File + error.
Variable Stat : File -> Z + error.
Variable Read : File -> nat -> list Byte.byte * option error * File.
Variable appendSlack : nat -> nat.
Variable allocates : nat -> bool.
Variable intBits : Z.
Hypothesis int_width : (16 <= intBits)%Z.

Lemma half_range : (2 ^ intBits = 2 * 2 ^ (intBits - 1))%Z
                   /\ (32768 <= 2 ^ (intBits - 1))%Z.
Proof.
  split.
  - rewrite <- Z.pow_succ_r by lia. f_equal. lia.
  - change 32768%Z with (2 ^ 15)%Z. apply Z.pow_le_mono_r; lia.
Qed.

Lemma toInt_fits (x : Z) :
  (- 2 ^ (intBits - 1) <= x < 2 ^ (intBits - 1))%Z ->
  os.toInt intBits x = x.
Proof.
  intros Hx. unfold os.toInt. destruct half_range as [Hpow _].
  rewrite Z.mod_small by lia. lia.
Qed.

Lemma toInt_range (x : Z) :
  (- 2 ^ (intBits - 1) <= os.toInt intBits x < 2 ^ (intBits - 1))%Z.
Proof.
  unfold os.toInt. destruct half_range as [Hpow Hbig].
  pose proof (Z.mod_pos_bound (x + 2 ^ (intBits - 1)) (2 ^ intBits)
                ltac:(lia)).
  lia.
Qed.

Lemma initialSize_cases (f : File) :
  (512 <= os.initialSize File error Stat intBits f)%Z
  /\ (forall size,
        Stat f = inl size ->
        (511 <= size)%Z -> (size + 1 < 2 ^ (intBits - 1))%Z ->
        os.initialSize File error Stat intBits f = (size + 1)%Z)
  /\ (forall size,
        Stat f = inl size ->
        (size < 511)%Z \/ (2 ^ (intBits - 1) - 1 <= size)%Z ->
        os.initialSize File error Stat intBits f = 512%Z)
  /\ (forall e,
        Stat f = inr e -> os.initialSize File error Stat intBits f = 512%Z).
Proof.
  destruct half_range as [Hpow Hbig]. unfold os.initialSize. split.
  - destruct (_ <? 512)%Z eqn:E; lia.
  - split; [|split].
    + intros size -> Hlow Hhigh.
      rewrite (toInt_fits size) by lia. rewrite Z.eqb_refl.
      rewrite toInt_fits by lia.
      destruct (Z.ltb_spec (size + 1) 512); lia.
    + intros size -> Hsize.
      destruct (Z.eqb_spec (os.toInt intBits size) size) as [Heq|Hne].
      * pose proof (toInt_range size) as Hr. rewrite Heq in *.
        destruct Hsize as [Hsmall|Hlarge].
        -- rewrite toInt_fits by lia.
           destruct (Z.ltb_spec (size + 1) 512); lia.
        -- assert (size = 2 ^ (intBits - 1) - 1)%Z as -> by lia.
           replace (2 ^ (intBits - 1) - 1 + 1)%Z
             with (2 ^ (intBits - 1))%Z by lia.
           assert (os.toInt intBits (2 ^ (intBits - 1))
                   = - 2 ^ (intBits - 1))%Z as ->.
           { unfold os.toInt.
             replace (2 ^ (intBits - 1) + 2 ^ (intBits - 1))%Z
               with (2 ^ intBits)%Z by lia.
             rewrite Z.mod_same by lia. lia. }
           destruct (Z.ltb_spec (- 2 ^ (intBits - 1)) 512); lia.
      * rewrite toInt_fits by lia. reflexivity.
    + intros e ->. rewrite toInt_fits by lia. reflexivity.
Qed.

(** X13: for a file that opens, the capacity [ReadFile] asks of [make] for
    its first buffer is never below 512.  It is one more than the size
    [Stat] reports when that size is at least 511 and the sum still fits
    [int]; it is 512 when [Stat] fails, when the size is below 511, when it
    does not fit [int], and when it is the largest [int], where [size++]
    wraps around.  When the run time can allocate that capacity the loop
    starts on an empty buffer of that capacity; when it cannot,
    [ReadFile] panics before any call of [Read]. *)
Theorem X13_ReadFile_first_buffer (name : string) (f : File) (fuel : nat) :
  Open name = inl f ->
  let size := os.initialSize File error Stat intBits f in
  (512 <= size)%Z
  /\ (forall size64,
        Stat f = inl size64 ->
        (511 <= size64)%Z -> (size64 + 1 < 2 ^ (intBits - 1))%Z ->
        size = (size64 + 1)%Z)
  /\ (forall size64,
        Stat f = inl size64 ->
        (size64 < 511)%Z \/ (2 ^ (intBits - 1) - 1 <= size64)%Z ->
        size = 512%Z)
  /\ (forall e, Stat f = inr e -> size = 512%Z)
  /\ (allocates (Z.to_nat size) = true ->
      os.ReadFile File error EOF Open Stat Read appendSlack allocates intBits
        fuel name
      = os.readLoop File error EOF Read appendSlack allocates fuel f []
          (Z.to_nat size))
  /\ (allocates (Z.to_nat size) = false ->
      os.ReadFile File error EOF Open Stat Read appendSlack allocates intBits
        fuel name
      = Some os.Panicked).
Proof.
  intros HOpen size. subst size.
  destruct (initialSize_cases f) as (Hmin & Hfits & Hsmall & Hfail).
  split; [exact Hmin|]. split; [exact Hfits|]. split; [exact Hsmall|].
  split; [exact Hfail|].
  unfold os.ReadFile. rewrite HOpen. cbv zeta.
  split; intros ->; reflexivity.
Qed.

End InitialSize.

(** With a 64-bit [int] and a run time that allocates up to 4096 bytes: a
    file said to hold 2^62 bytes makes [ReadFile] panic. *)
Lemma X13_first_buffer_witness :
  os.ReadFile unit nat O (fun _ => inl tt)
    (fun _ => inl 4611686018427387904%Z)
    (fun f _ => ([], Some O, f)) (fun c => c)
    (fun n => (Z.of_nat n <=? 4096)%Z) 64 1 "huge"
  = Some os.Panicked.
Proof.
  destruct (X13_ReadFile_first_buffer unit nat O (fun _ => inl tt)
              (fun _ => inl 4611686018427387904%Z)
              (fun f _ => ([], Some O, f)) (fun c => c)
              (fun n => (Z.of_nat n <=? 4096)%Z) 64 ltac:(lia)
              "huge" tt 1%nat eq_refl)
    as (_ & Hfits & _ & _ & _ & Hpanic).
  apply Hpanic.
  rewrite (Hfits 4611686018427387904%Z eq_refl ltac:(lia) eq_refl).
  rewrite Z2Nat.id by lia. reflexivity.
Defined.

(** ** [define] lines under an LLVM before version 10 *)

Lemma string_length_append (s t : string) :
  String.length (s ++ t) = (String.length s + String.length t)%nat.
Proof.
  induction s as [|c s IH]; [reflexivity|].
  rewrite append_cons. cbn [String.length]. now rewrite IH.
Qed.

Lemma paramAt_needs_percent (c : ascii) (s : string) :
  (forall s', s <> String "%" s') ->
  regexp.paramAt (String c s) = None.
Proof.
  intros Hs. unfold regexp.paramAt. cbn [regexp.stripLiteral].
  destruct (Ascii.eqb " " c); [|reflexivity].
  destruct s as [|b s]; [reflexivity|].
  destruct (Ascii.eqb_spec "%" b) as [<-|_]; [|reflexivity].
  now destruct (Hs s).
Qed.

Lemma paramReplace_skip (p y : string) :
  regexp.paramReplaceFrom (String.length p) (p ++ y)
  = regexp.paramReplaceFrom O y.
Proof.
  induction p as [|c p IH]; [reflexivity|].
  rewrite append_cons. cbn [String.length regexp.paramReplaceFrom]. exact IH.
Qed.

Lemma countDigits_run (d rest : string) (g : ascii) :
  regexp.allDigits d = true -> regexp.isDigit g = false ->
  regexp.countDigits (d ++ String g rest) = String.length d.
Proof.
  intros Hd Hg. induction d as [|c d IH].
  - change (EmptyString ++ String g rest) with (String g rest).
    cbn [regexp.countDigits]. now rewrite Hg.
  - cbn [regexp.allDigits] in Hd. apply andb_true_iff in Hd as [Hc Hd].
    rewrite append_cons. cbn [regexp.countDigits String.length].
    now rewrite Hc, IH.
Qed.

Lemma sliceFrom_run (d rest : string) (g : ascii) :
  strings.sliceFrom (d ++ String g rest) (String.length d) = String g rest.
Proof.
  induction d as [|c d IH]; [reflexivity|].
  rewrite append_cons. cbn [String.length strings.sliceFrom]. exact IH.
Qed.

Lemma paramAt_match (d y : string) (g : ascii) :
  d <> EmptyString -> regexp.allDigits d = true ->
  g = ")"%char \/ g = ","%char ->
  regexp.paramAt (" %" ++ d ++ String g y)
  = Some (2 + String.length d + 1, g)%nat.
Proof.
  intros Hne Hd Hg. unfold regexp.paramAt.
  assert (Hstrip : regexp.stripLiteral " %" (" %" ++ d ++ String g y)
                   = Some (d ++ String g y))
    by now apply stripLiteral_Some.
  rewrite Hstrip.
  assert (Hnd : regexp.isDigit g = false) by (destruct Hg; now subst g).
  rewrite (countDigits_run d y g Hd Hnd), sliceFrom_run.
  destruct d as [|c d]; [contradiction|]. cbn [String.length Nat.eqb].
  destruct Hg; subst g; reflexivity.
Qed.

Lemma paramReplaceFrom_cons (c : ascii) (s : string) :
  regexp.paramReplaceFrom O (String c s)
  = match regexp.paramAt (String c s) with
    | Some (len, g) => String g (regexp.paramReplaceFrom (len - 1) s)
    | None => String c (regexp.paramReplaceFrom O s)
    end.
Proof. reflexivity. Qed.

Lemma paramReplace_skip_name (d y : string) (g : ascii) :
  regexp.paramReplaceFrom (2 + String.length d + 1 - 1)
    (String "%" (d ++ String g y))
  = regexp.paramReplaceFrom O y.
Proof.
  pose proof (paramReplace_skip (String "%" (d ++ String g EmptyString)) y)
    as H.
  rewrite append_cons, append_assoc in H.
  change (String g EmptyString ++ y) with (String g y) in H.
  cbn [String.length] in H. rewrite string_length_append in H.
  cbn [String.length] in H.
  replace (2 + String.length d + 1 - 1)%nat
    with (S (String.length d + 1)) by lia.
  exact H.
Qed.

(** One parameter name goes, what stands before it stays. *)
Lemma paramReplace_one (x d y : string) (g : ascii) :
  ~ In "%"%char (list_ascii_of_string x) ->
  d <> EmptyString -> regexp.allDigits d = true ->
  g = ")"%char \/ g = ","%char ->
  regexp.paramReplaceFrom O (x ++ " %" ++ d ++ String g y)
  = x ++ String g (regexp.paramReplaceFrom O y).
Proof.
  intros Hx Hne Hd Hg. induction x as [|c x IH].
  - change (EmptyString ++ " %" ++ d ++ String g y)
      with (String " " (String "%" (d ++ String g y))).
    rewrite paramReplaceFrom_cons.
    change (String " " (String "%" (d ++ String g y)))
      with (" %" ++ d ++ String g y).
    rewrite (paramAt_match d y g Hne Hd Hg).
    rewrite paramReplace_skip_name. reflexivity.
  - cbn [list_ascii_of_string In] in Hx. rewrite append_cons.
    rewrite paramReplaceFrom_cons, paramAt_needs_percent.
    + rewrite IH by tauto. reflexivity.
    + intros s' Hs. destruct x as [|b x].
      * discriminate Hs.
      * rewrite append_cons in Hs. injection Hs as -> _.
        apply Hx. right. now left.
Qed.

Lemma Split_single_line (s : string) :
  ~ In LF (list_ascii_of_string s) -> strings.Split s LF = [s].
Proof.
  induction s as [|c s IH]; [reflexivity|]. cbn [list_ascii_of_string In].
  intros H. cbn [strings.Split].
  destruct (Ascii.eqb_spec c LF) as [->|_]; [tauto|].
  rewrite IH by tauto. reflexivity.
Qed.

Lemma filter_define_line (v : Z) (l rest : string) :
  (v < 10)%Z ->
  declarative.cleanLine l = "define " ++ rest ->
  filterIrrelevantIRLines v [l]
  = [regexp.paramReplaceAllString ("define " ++ rest)].
Proof.
  intros Hv Hl. rewrite filterIrrelevantIRLines_relevantLines.
  unfold declarative.relevantLines. cbn [map List.filter].
  assert (Hlt : (v <? 10)%Z = true) by lia.
  assert (Hkeep : declarative.keepLine v (declarative.cleanLine l) = true).
  { rewrite Hl. unfold declarative.keepLine. rewrite Hlt. reflexivity. }
  rewrite Hkeep. cbn [map]. unfold declarative.rewriteLine.
  assert (Hdef : strings.HasPrefix ("define " ++ rest) "define " = true)
    by (apply prefix_iff; eauto).
  rewrite Hlt, Hl, Hdef. reflexivity.
Qed.

Lemma paramAt_Some_numbered (s : string) (p : nat * ascii) :
  regexp.paramAt s = Some p ->
  exists c b, regexp.isDigit c = true
              /\ s = String " " (String "%" (String c b)).
Proof.
  unfold regexp.paramAt.
  destruct (regexp.stripLiteral " %" s) as [r|] eqn:E; [|discriminate].
  apply stripLiteral_Some in E. subst s.
  destruct r as [|c b]; [discriminate|]. cbn [regexp.countDigits].
  destruct (regexp.isDigit c) eqn:Hc; [|discriminate].
  intros _. now exists c, b.
Qed.

Lemma numbered_cons (c : ascii) (s : string) :
  variants.numbered s -> variants.numbered (String c s).
Proof.
  intros (a & d & b & Hd & ->). exists (String c a), d, b.
  split; [exact Hd|]. now rewrite append_cons.
Qed.

Lemma hasNumbered_numbered (s : string) :
  variants.hasNumbered s = false -> ~ variants.numbered s.
Proof.
  induction s as [|c s IH]; intros Hs (a & d & b & Hd & Heq).
  - destruct a; discriminate Heq.
  - cbn [variants.hasNumbered] in Hs. apply orb_false_iff in Hs as [Hhere Hs].
    destruct a as [|c' a].
    + change (EmptyString ++ String " " (String "%" (String d b)))
        with (String " " (String "%" (String d b))) in Heq.
      rewrite Heq in Hhere. cbn in Hhere. congruence.
    + rewrite append_cons in Heq. injection Heq as _ ->.
      apply (IH Hs). now exists a, d, b.
Qed.

Lemma paramReplace_plain (x t : string) :
  ~ variants.numbered x -> variants.startsPlain t ->
  regexp.paramReplaceFrom O (x ++ t) = x ++ regexp.paramReplaceFrom O t.
Proof.
  intros Hx Ht. induction x as [|c x IH]; [reflexivity|].
  rewrite !append_cons, paramReplaceFrom_cons.
  destruct (regexp.paramAt (String c (x ++ t))) as [p|] eqn:E.
  - exfalso. apply paramAt_Some_numbered in E as (d & b & Hd & Heq).
    injection Heq as -> Heq.
    destruct x as [|c1 x].
    + change (EmptyString ++ t) with t in Heq. subst t.
      now destruct Ht as [Ht _].
    + rewrite append_cons in Heq. injection Heq as -> Heq.
      destruct x as [|c2 x].
      * change (EmptyString ++ t) with t in Heq. subst t.
        destruct Ht as [_ Ht]. congruence.
      * rewrite append_cons in Heq. injection Heq as -> Heq.
        apply Hx. now exists EmptyString, d, x.
  - rewrite IH; [reflexivity|].
    intros H. apply Hx. now apply numbered_cons.
Qed.

(** Every parameter name goes, everything else stays. *)
Lemma paramReplace_withNames (x : string)
    (params : list (string * ascii * string)) :
  ~ variants.numbered x -> Forall variants.wellFormed params ->
  regexp.paramReplaceFrom O (x ++ variants.withNames params)
  = x ++ variants.withoutNames params.
Proof.
  intros Hx Hparams. revert x Hx.
  induction Hparams as [|[[d g] text] rest (Hne & Hd & Hg & Htext) _ IH];
    intros x Hx.
  - cbn [variants.withNames variants.withoutNames].
    now rewrite paramReplace_plain.
  - cbn [variants.withNames variants.withoutNames].
    rewrite paramReplace_plain by (assumption || (split; [discriminate|reflexivity])).
    f_equal.
    pose proof (paramReplace_one EmptyString d
                  (text ++ variants.withNames rest) g) as Hone.
    change (EmptyString ++ " %" ++ d
            ++ String g (text ++ variants.withNames rest))
      with (String " " (String "%"
              (d ++ String g (text ++ variants.withNames rest)))) in Hone.
    rewrite Hone by (assumption || (cbn; tauto)).
    change (EmptyString ++ String g
              (regexp.paramReplaceFrom O (text ++ variants.withNames rest)))
      with (String g
              (regexp.paramReplaceFrom O (text ++ variants.withNames rest))).
    now rewrite (IH text Htext).
Qed.

(** A line printed without the names is left as it is. *)
Lemma paramReplace_withoutNames (x : string)
    (params : list (string * ascii * string)) :
  ~ variants.numbered x -> Forall variants.wellFormed params ->
  regexp.paramReplaceFrom O (x ++ variants.withoutNames params)
  = x ++ variants.withoutNames params.
Proof.
  intros Hx Hparams. revert x Hx.
  induction Hparams as [|[[d g] text] rest (Hne & Hd & Hg & Htext) _ IH];
    intros x Hx.
  - cbn [variants.withoutNames]. now rewrite paramReplace_plain.
  - cbn [variants.withoutNames].
    rewrite paramReplace_plain
      by (assumption || (destruct Hg; subst g; (split; [discriminate|reflexivity]))).
    f_equal. rewrite paramReplaceFrom_cons.
    destruct (regexp.paramAt
                (String g (text ++ variants.withoutNames rest))) eqn:E.
    + exfalso. apply paramAt_Some_numbered in E as (c & b & _ & Heq).
      injection Heq as -> _. destruct Hg; discriminate.
    + now rewrite (IH text Htext).
Qed.

(** X14: under an LLVM before version 10 the filter takes every parameter
    name [ %N] that a [)] or a [,] follows out of a [define] line, so that
    a [define] line printed with its numbered parameters compares equal to
    the same line printed without them.  The line has any number of
    numbered parameters; the text before the first name and after each
    closing character is any text in which no space, [%] and digit stand
    in a row, so it may hold [%T] types and named values. *)
Theorem X14_define_lines_compare_without_parameter_names
    (v : Z) (l1 l2 x : string) (params : list (string * ascii * string)) :
  (v < 10)%Z ->
  ~ In LF (list_ascii_of_string l1) ->
  ~ In LF (list_ascii_of_string l2) ->
  declarative.cleanLine l1 = "define " ++ x ++ variants.withNames params ->
  declarative.cleanLine l2 = "define " ++ x ++ variants.withoutNames params ->
  ~ variants.numbered ("define " ++ x) ->
  Forall (fun p : string * ascii * string =>
            let '(d, g, text) := p in
            d <> EmptyString /\ regexp.allDigits d = true
            /\ (g = ")"%char \/ g = ","%char)
            /\ ~ variants.numbered text) params ->
  filterIrrelevantIRLines v [l1]
  = ["define " ++ x ++ variants.withoutNames params]
  /\ filterIrrelevantIRLines v [l2]
     = ["define " ++ x ++ variants.withoutNames params]
  /\ fuzzyEqualIR v l1 l2 = true.
Proof.
  intros Hv Hn1 Hn2 Hl1 Hl2 Hx Hparams.
  assert (H1 : filterIrrelevantIRLines v [l1]
               = ["define " ++ x ++ variants.withoutNames params]).
  { rewrite (filter_define_line v l1 _ Hv Hl1). f_equal.
    unfold regexp.paramReplaceAllString. rewrite <- !append_assoc.
    now apply paramReplace_withNames. }
  assert (H2 : filterIrrelevantIRLines v [l2]
               = ["define " ++ x ++ variants.withoutNames params]).
  { rewrite (filter_define_line v l2 _ Hv Hl2). f_equal.
    unfold regexp.paramReplaceAllString. rewrite <- !append_assoc.
    now apply paramReplace_withoutNames. }
  split; [exact H1|]. split; [exact H2|].
  apply fuzzyEqualIR_linesMatch.
  rewrite (Split_single_line l1 Hn1), (Split_single_line l2 Hn2), H1, H2.
  apply Forall2_linesMatch_refl.
Qed.

Lemma X14_define_lines_witness :
  fuzzyEqualIR 9 "define void @f(%T* %0, i32 %1) { ; LLVM 10"
    "define void @f(%T*, i32) {"
  = true.
Proof.
  refine (proj2 (proj2
            (X14_define_lines_compare_without_parameter_names 9
               "define void @f(%T* %0, i32 %1) { ; LLVM 10"
               "define void @f(%T*, i32) {"
               "void @f(%T*" [("0", ","%char, " i32"); ("1", ")"%char, " {")]
               _ _ _ _ _ _ _))).
  - lia.
  - cbn. intros H. repeat (destruct H as [H|H]; [discriminate H|]). exact H.
  - cbn. intros H. repeat (destruct H as [H|H]; [discriminate H|]). exact H.
  - reflexivity.
  - reflexivity.
  - apply hasNumbered_numbered. reflexivity.
  - constructor; [|constructor; [|constructor]].
    + split; [discriminate|]. split; [reflexivity|]. split; [now right|].
      apply hasNumbered_numbered. reflexivity.
    + split; [discriminate|]. split; [reflexivity|]. split; [now left|].
      apply hasNumbered_numbered. reflexivity.
Defined.

(** ** Fixtures with other line ends or comments *)

Lemma fuzzyEqualIR_toCRLF_left (v : Z) (s1 s2 : string) :
  fuzzyEqualIR v (variants.toCRLF s1) s2 = fuzzyEqualIR v s1 s2.
Proof.
  apply Bool.eq_true_iff_eq. rewrite !fuzzyEqualIR_linesMatch.
  now rewrite filter_toCRLF.
Qed.

(** X15: an expected fixture stored with Windows line ends gives the same
    verdict: in compare mode the run on the files with a carriage return
    put before every line feed of [<name>.out.ll] fails, logs and stops
    exactly as the run on the files as they are. *)
Theorem X15_fixture_line_ends_do_not_matter
    (Module_ : Type) (ParseIR : string -> option Module_)
    (ModuleString : Module_ -> string) (llvmVersion : Z)
    (writable : string -> bool)
    (fs : gmap string string) (name : string)
    (transform : Module_ -> Module_) (expected : string) :
  fs !! (name ++ ".out.ll") = Some expected ->
  let r := harness.testTransform Module_ ParseIR ModuleString llvmVersion
             writable false fs name transform in
  let r' := harness.testTransform Module_ ParseIR ModuleString llvmVersion
              writable false
              (<[name ++ ".out.ll" := variants.toCRLF expected]> fs) name
              transform in
  harness.failed r' = harness.failed r
  /\ harness.log r' = harness.log r
  /\ harness.completed r' = harness.completed r.
Proof.
  intros Hexp r r'. subst r r'. unfold harness.testTransform.
  rewrite lookup_insert_ne by (apply not_eq_sym, fixture_paths_differ).
  destruct (fs !! (name ++ ".ll")) as [buf|]; [|cbn; auto].
  destruct (ParseIR buf) as [m|]; [|cbn; auto].
  rewrite lookup_insert_eq, Hexp, fuzzyEqualIR_toCRLF_left.
  destruct (negb _); cbn; auto.
Qed.

Lemma X15_fixture_line_ends_witness :
  let fs : gmap string string :=
    <["t.ll" := "ret void"]>
      (<["t.out.ll" := "ret void" ++ String LF "unreachable"]> ∅) in
  harness.failed
    (harness.testTransform string Some id 11 (fun _ => true) false
       (<["t.out.ll" := variants.toCRLF ("ret void" ++ String LF "unreachable")]>
          fs) "t" id)
  = harness.failed
      (harness.testTransform string Some id 11 (fun _ => true) false
         fs "t" id).
Proof.
  intros fs.
  exact (proj1 (X15_fixture_line_ends_do_not_matter string Some id 11
                  (fun _ => true) fs "t" id
                  ("ret void" ++ String LF "unreachable") eq_refl)).
Defined.

Lemma cleanLine_comment (comment : string) :
  declarative.cleanLine (String ";" comment) = declarative.cleanLine "".
Proof. reflexivity. Qed.

Lemma In_LF_comment (comment : string) :
  ~ In LF (list_ascii_of_string comment) ->
  ~ In LF (list_ascii_of_string (String ";" comment)).
Proof.
  intros Hc [H|H]; [discriminate H|]. now apply Hc.
Qed.

(** A comment put at the end of a line changes no cleaned line. *)
Lemma cleaned_lines_with_comment (pre comment post : string) :
  ~ In LF (list_ascii_of_string comment) ->
  post = EmptyString \/ (exists rest, post = String LF rest) ->
  map declarative.cleanLine
    (strings.Split (pre ++ String ";" (comment ++ post)) LF)
  = map declarative.cleanLine (strings.Split (pre ++ post) LF).
Proof.
  intros Hc Hpost. induction pre as [|c pre IH].
  - change (EmptyString ++ String ";" (comment ++ post))
      with (String ";" (comment ++ post)).
    change (EmptyString ++ post) with post.
    destruct Hpost as [->|[rest ->]].
    + rewrite append_empty_r.
      rewrite (Split_single_line _ (In_LF_comment _ Hc)). reflexivity.
    + change (String ";" (comment ++ String LF rest))
        with (String ";" comment ++ String LF rest).
      rewrite Split_append.
      rewrite (Split_single_line _ (In_LF_comment _ Hc)).
      cbn [strings.Split app map]. rewrite Ascii.eqb_refl. reflexivity.
  - rewrite !append_cons. cbn [strings.Split].
    destruct (Ascii.eqb c LF); [cbn [map]; now rewrite IH|].
    destruct (strings.Split (pre ++ String ";" (comment ++ post)) LF)
      as [|p1 ps1] eqn:E1; [now apply Split_not_nil in E1|].
    destruct (strings.Split (pre ++ post) LF)
      as [|p2 ps2] eqn:E2; [now apply Split_not_nil in E2|].
    cbn [map] in IH |- *. injection IH as Hp Hps.
    now rewrite (cleanLine_cons c p1 p2 Hp), Hps.
Qed.

(** X16: a comment at the end of a line is not seen, wherever the line
    stands: a text and the same text with [;] and any comment put at the
    end of one of its lines (the first, the last, the only one or one in
    between; before the line feed that ends the line, or at the end of
    the text) give the same verdict, on either side of the comparison. *)
Theorem X16_trailing_comment_is_ignored
    (v : Z) (pre comment post s : string) :
  ~ In LF (list_ascii_of_string comment) ->
  post = EmptyString \/ (exists rest, post = String LF rest) ->
  fuzzyEqualIR v (pre ++ String ";" (comment ++ post)) s
  = fuzzyEqualIR v (pre ++ post) s
  /\ fuzzyEqualIR v s (pre ++ String ";" (comment ++ post))
     = fuzzyEqualIR v s (pre ++ post).
Proof.
  intros Hcomment Hpost.
  assert (Hsame :
    filterIrrelevantIRLines v
      (strings.Split (pre ++ String ";" (comment ++ post)) LF)
    = filterIrrelevantIRLines v (strings.Split (pre ++ post) LF)).
  { rewrite !filterIrrelevantIRLines_relevantLines.
    unfold declarative.relevantLines.
    now rewrite (cleaned_lines_with_comment pre comment post Hcomment Hpost). }
  split; apply Bool.eq_true_iff_eq; rewrite !fuzzyEqualIR_linesMatch;
    now rewrite Hsame.
Qed.

Lemma X16_trailing_comment_witness :
  fuzzyEqualIR 11 ("ret void" ++ String ";" (" done" ++ "")) "ret void"
  = fuzzyEqualIR 11 ("ret void" ++ "") "ret void"
  /\ fuzzyEqualIR 11
       ("entry:" ++ String LF "  ret void"
          ++ String ";" (" done" ++ String LF "}"))
       ("entry:" ++ String LF "  ret void" ++ String LF "}")
     = fuzzyEqualIR 11
         (("entry:" ++ String LF "  ret void") ++ String LF "}")
         ("entry:" ++ String LF "  ret void" ++ String LF "}").
Proof.
  split.
  - refine (proj1 (X16_trailing_comment_is_ignored 11 "ret void" " done" ""
                     "ret void" _ _)).
    + cbn. intros H.
      repeat (destruct H as [H|H]; [discriminate H|]). exact H.
    + left. reflexivity.
  - refine (proj1 (X16_trailing_comment_is_ignored 11
                     ("entry:" ++ String LF "  ret void") " done"
                     (String LF "}")
                     ("entry:" ++ String LF "  ret void" ++ String LF "}")
                     _ _)).
    + cbn. intros H.
      repeat (destruct H as [H|H]; [discriminate H|]). exact H.
    + right. now exists "}".
Defined.
